(** * Verification of the browser recorder and image analyzer

    Shallow embedding of
    - [src/components/VideoRecorder.tsx], lines 1-209: the [VideoRecorder]
      component (recording lifecycle controller);
    - [src/components/VideoRecorder.tsx], lines 209-316: the [ImageAnalyzer]
      component;
    - [src/unnamed/part_000]: the inference client [analyzeImageWithGemini].

    The components are React function components: their code is a set of
    event handlers over a record of state cells ([useState]) and mutable
    references ([useRef]).  Each handler is embedded as a function from the
    world before the event to the world after it.  The browser objects the
    handlers talk to (media streams, the [MediaRecorder], timers, the blob
    URL store) are part of the world, and every call that crosses into the
    browser is appended to a call trace. *)

From Stdlib Require Import ZArith String Ascii List Lia.
From stdpp Require Import base gmap strings list pretty.

Open Scope Z_scope.

(** ** JavaScript values used by the components *)

(** The numbers the recorder handles are produced by [parseInt] and
    [Math.max]: integers, or [NaN].  [JNum z] is the integer [z], kept
    exact.  The code computes with doubles, which hold every integer up to
    [Number.MAX_SAFE_INTEGER] in magnitude exactly; past that the code's
    value is the nearest double, or [Infinity], and [JNum z] agrees with it
    only up to that rounding.  The properties that need the exact value
    are stated within the bound. *)
Inductive JsNumber : Type :=
  | JNum (z : Z)
  | JNaN.

(** [Number.MAX_SAFE_INTEGER], 2^53 - 1. *)
Definition MAX_SAFE_INTEGER : Z := 9007199254740991.

(** [Number.isSafeInteger] on an integer. *)
Definition isSafeInteger (z : Z) : bool :=
  (- MAX_SAFE_INTEGER <=? z) && (z <=? MAX_SAFE_INTEGER).

(** [a > b] on numbers: any comparison with [NaN] is [false]. *)
Definition js_gt (a b : JsNumber) : bool :=
  match a, b with
  | JNum x, JNum y => y <? x
  | _, _ => false
  end.

(** [a * b] on numbers. *)
Definition js_mul (a b : JsNumber) : JsNumber :=
  match a, b with
  | JNum x, JNum y => JNum (x * y)
  | _, _ => JNaN
  end.

(** [Math.max(a, b)]: [NaN] as soon as one argument is [NaN]. *)
Definition Math_max (a b : JsNumber) : JsNumber :=
  match a, b with
  | JNum x, JNum y => JNum (Z.max x y)
  | _, _ => JNaN
  end.

(** White space skipped by [parseInt] (code units below 256): TAB, LF, VT,
    FF, CR, SP and NBSP. *)
Definition isWhiteSpace (c : ascii) : bool :=
  let n := nat_of_ascii c in
  (n =? 9)%nat || (n =? 10)%nat || (n =? 11)%nat || (n =? 12)%nat
  || (n =? 13)%nat || (n =? 32)%nat || (n =? 160)%nat.

Fixpoint trimStart (s : string) : string :=
  match s with
  | EmptyString => EmptyString
  | String c r => if isWhiteSpace c then trimStart r else s
  end.

Definition digitValue (c : ascii) : option Z :=
  let n := nat_of_ascii c in
  if (48 <=? n)%nat && (n <=? 57)%nat then Some (Z.of_nat (n - 48)) else None.

(** The value of the longest prefix of decimal digits; [acc] is [None]
    until a first digit has been read. *)
Fixpoint parseDigits (acc : option Z) (s : string) : option Z :=
  match s with
  | EmptyString => acc
  | String c r =>
      match digitValue c with
      | Some d => parseDigits (Some (10 * default 0 acc + d)) r
      | None => acc
      end
  end.

(** [parseInt(s, 10)]: leading white space, an optional sign, then the
    longest run of decimal digits; [NaN] when that run is empty.  The
    result is the integer the digits denote; the code's result is the
    double nearest to it, the same number when it is a safe integer. *)
Definition parseInt (s : string) : JsNumber :=
  let t := trimStart s in
  let '(sign, body) :=
    match t with
    | String "-" r => (-1, r)
    | String "+" r => (1, r)
    | _ => (1, t)
    end in
  match parseDigits None body with
  | Some m => JNum (sign * m)
  | None => JNaN
  end.

(** Truthiness of a string: every string but the empty one. *)
Definition truthy (s : string) : bool :=
  match s with
  | EmptyString => false
  | String _ _ => true
  end.

(** [hay.includes(needle)]. *)
Fixpoint includes (hay needle : string) : bool :=
  String.prefix needle hay
  || match hay with
     | EmptyString => false
     | String _ r => includes r needle
     end.

(** A [Blob]: its bytes and its media type. *)
Record Blob : Type := mkBlob {
  blob_bytes : list Byte.byte;
  blob_type : string
}.

Definition blob_size (b : Blob) : Z := Z.of_nat (length (blob_bytes b)).

(** [new Blob(parts, { type })]: the parts' bytes in order. *)
Definition new_Blob (parts : list Blob) (ty : string) : Blob :=
  mkBlob (concat (map blob_bytes parts)) ty.

(** ** The recording lifecycle controller ([VideoRecorder]) *)

Module Recorder.

(** [type RecordingStatus] (line 3). *)
Inductive RecordingStatus : Type :=
  | idle
  | permission_pending
  | ready
  | recording
  | finished.

(** *** Browser objects *)

(** [MediaStreamTrack.readyState]. *)
Inductive TrackState : Type :=
  | live
  | ended.

(** The [video] member of the constraints passed to [getUserMedia]:
    [true], or an object with a [facingMode]. *)
Inductive VideoConstraint : Type :=
  | video_any
  | video_facing (mode : string).

Record MediaStreamConstraints : Type := mkConstraints {
  video : VideoConstraint;
  audio : bool
}.

(** Outcome of one [getUserMedia] promise: a stream with so many tracks,
    or a rejection with the name of the exception. *)
Inductive GumResult : Type :=
  | granted (ntracks : nat)
  | rejected (name : string).

(** [MediaRecorder.state]. *)
Inductive RecorderState : Type :=
  | rs_inactive
  | rs_recording
  | rs_paused.

(** A [MediaRecorder] object: the stream it was built on and its state.
    Its two handlers are the closures installed by [handleStartRecording];
    the stream captured by [onstop] is the one the recorder was built on. *)
Record MediaRecorder : Type := mkRecorder {
  rec_stream : nat;
  rec_state : RecorderState
}.

(** The two callbacks the component hands to the timer functions. *)
Inductive TimerCallback : Type :=
  | cb_autoStop     (* () => { handleStopRecording(); }        line 114 *)
  | cb_stopwatch.   (* () => { setElapsedTime(prev => prev + 1); } line 63 *)

(** A pending timer.  Timer ids are the positive integers the browser
    hands out, so an id stored in a ref is always truthy.  [t_period] is
    [None] for [setTimeout] and the period for [setInterval]. *)
Record Timer : Type := mkTimer {
  t_id : positive;
  t_due : Z;
  t_period : option Z;
  t_cb : TimerCallback
}.

(** Events the browser has queued for a recorder's handlers. *)
Inductive Task : Type :=
  | ev_dataavailable (r : nat) (data : Blob)
  | ev_stop (r : nat).

(** Calls made into the browser, in order. *)
Inductive Call : Type :=
  | call_getUserMedia (c : MediaStreamConstraints)
  | call_new_MediaRecorder (stream : nat)
  | call_recorder_start (r : nat)
  | call_recorder_stop (r : nat)
  | call_track_stop (stream : nat)
  | call_createObjectURL (url : string)
  | call_revokeObjectURL (url : string)
  | call_setTimeout (id : positive) (cb : TimerCallback) (delay : Z)
  | call_setInterval (id : positive) (cb : TimerCallback) (period : Z)
  | call_clearTimeout (id : positive)
  | call_clearInterval (id : positive).

(** *** The world: component state, refs, and the browser *)

Record World : Type := mkWorld {
  (* useState cells, lines 20-25 *)
  status : RecordingStatus;
  mediaStream : option nat;
  recordedVideoUrl : option string;
  error : option string;
  duration : JsNumber;
  elapsedTime : Z;
  (* the preview element's srcObject, reached through videoRef *)
  videoSrcObject : option nat;
  (* useRef cells, lines 28-31 *)
  mediaRecorderRef : option nat;
  recordedChunksRef : list Blob;
  timerRef : option positive;
  stopwatchRef : option positive;
  (* browser: clock in milliseconds and pending timers *)
  now : Z;
  timers : list Timer;
  nextTimerId : positive;
  (* browser: media streams (the state of each track) and recorders *)
  streams : gmap nat (list TrackState);
  recorders : gmap nat MediaRecorder;
  (* browser: events queued for delivery *)
  tasks : list Task;
  (* browser: the getUserMedia request that is waiting for its answer *)
  pendingRequest : option MediaStreamConstraints;
  (* browser: blob URL store *)
  objectURLs : gmap string Blob;
  nextBlobId : nat;
  (* the timer callbacks the browser has run so far, in order *)
  fired : list TimerCallback;
  (* trace of calls into the browser *)
  calls : list Call
}.

Definition set_status (v : RecordingStatus) (w : World) : World :=
  {| status := v; mediaStream := mediaStream w;
     recordedVideoUrl := recordedVideoUrl w; error := error w;
     duration := duration w; elapsedTime := elapsedTime w;
     videoSrcObject := videoSrcObject w;
     mediaRecorderRef := mediaRecorderRef w;
     recordedChunksRef := recordedChunksRef w; timerRef := timerRef w;
     stopwatchRef := stopwatchRef w; now := now w; timers := timers w;
     nextTimerId := nextTimerId w; streams := streams w;
     recorders := recorders w; tasks := tasks w;
     pendingRequest := pendingRequest w; objectURLs := objectURLs w;
     nextBlobId := nextBlobId w; fired := fired w; calls := calls w |}.

Definition set_mediaStream (v : option nat) (w : World) : World :=
  {| status := status w; mediaStream := v;
     recordedVideoUrl := recordedVideoUrl w; error := error w;
     duration := duration w; elapsedTime := elapsedTime w;
     videoSrcObject := videoSrcObject w;
     mediaRecorderRef := mediaRecorderRef w;
     recordedChunksRef := recordedChunksRef w; timerRef := timerRef w;
     stopwatchRef := stopwatchRef w; now := now w; timers := timers w;
     nextTimerId := nextTimerId w; streams := streams w;
     recorders := recorders w; tasks := tasks w;
     pendingRequest := pendingRequest w; objectURLs := objectURLs w;
     nextBlobId := nextBlobId w; fired := fired w; calls := calls w |}.

Definition set_recordedVideoUrl (v : option string) (w : World) : World :=
  {| status := status w; mediaStream := mediaStream w; recordedVideoUrl := v;
     error := error w; duration := duration w; elapsedTime := elapsedTime w;
     videoSrcObject := videoSrcObject w;
     mediaRecorderRef := mediaRecorderRef w;
     recordedChunksRef := recordedChunksRef w; timerRef := timerRef w;
     stopwatchRef := stopwatchRef w; now := now w; timers := timers w;
     nextTimerId := nextTimerId w; streams := streams w;
     recorders := recorders w; tasks := tasks w;
     pendingRequest := pendingRequest w; objectURLs := objectURLs w;
     nextBlobId := nextBlobId w; fired := fired w; calls := calls w |}.

Definition set_error (v : option string) (w : World) : World :=
  {| status := status w; mediaStream := mediaStream w;
     recordedVideoUrl := recordedVideoUrl w; error := v;
     duration := duration w; elapsedTime := elapsedTime w;
     videoSrcObject := videoSrcObject w;
     mediaRecorderRef := mediaRecorderRef w;
     recordedChunksRef := recordedChunksRef w; timerRef := timerRef w;
     stopwatchRef := stopwatchRef w; now := now w; timers := timers w;
     nextTimerId := nextTimerId w; streams := streams w;
     recorders := recorders w; tasks := tasks w;
     pendingRequest := pendingRequest w; objectURLs := objectURLs w;
     nextBlobId := nextBlobId w; fired := fired w; calls := calls w |}.

Definition set_duration (v : JsNumber) (w : World) : World :=
  {| status := status w; mediaStream := mediaStream w;
     recordedVideoUrl := recordedVideoUrl w; error := error w; duration := v;
     elapsedTime := elapsedTime w; videoSrcObject := videoSrcObject w;
     mediaRecorderRef := mediaRecorderRef w;
     recordedChunksRef := recordedChunksRef w; timerRef := timerRef w;
     stopwatchRef := stopwatchRef w; now := now w; timers := timers w;
     nextTimerId := nextTimerId w; streams := streams w;
     recorders := recorders w; tasks := tasks w;
     pendingRequest := pendingRequest w; objectURLs := objectURLs w;
     nextBlobId := nextBlobId w; fired := fired w; calls := calls w |}.

Definition set_elapsedTime (v : Z) (w : World) : World :=
  {| status := status w; mediaStream := mediaStream w;
     recordedVideoUrl := recordedVideoUrl w; error := error w;
     duration := duration w; elapsedTime := v;
     videoSrcObject := videoSrcObject w;
     mediaRecorderRef := mediaRecorderRef w;
     recordedChunksRef := recordedChunksRef w; timerRef := timerRef w;
     stopwatchRef := stopwatchRef w; now := now w; timers := timers w;
     nextTimerId := nextTimerId w; streams := streams w;
     recorders := recorders w; tasks := tasks w;
     pendingRequest := pendingRequest w; objectURLs := objectURLs w;
     nextBlobId := nextBlobId w; fired := fired w; calls := calls w |}.

Definition set_videoSrcObject (v : option nat) (w : World) : World :=
  {| status := status w; mediaStream := mediaStream w;
     recordedVideoUrl := recordedVideoUrl w; error := error w;
     duration := duration w; elapsedTime := elapsedTime w;
     videoSrcObject := v; mediaRecorderRef := mediaRecorderRef w;
     recordedChunksRef := recordedChunksRef w; timerRef := timerRef w;
     stopwatchRef := stopwatchRef w; now := now w; timers := timers w;
     nextTimerId := nextTimerId w; streams := streams w;
     recorders := recorders w; tasks := tasks w;
     pendingRequest := pendingRequest w; objectURLs := objectURLs w;
     nextBlobId := nextBlobId w; fired := fired w; calls := calls w |}.

Definition set_mediaRecorderRef (v : option nat) (w : World) : World :=
  {| status := status w; mediaStream := mediaStream w;
     recordedVideoUrl := recordedVideoUrl w; error := error w;
     duration := duration w; elapsedTime := elapsedTime w;
     videoSrcObject := videoSrcObject w; mediaRecorderRef := v;
     recordedChunksRef := recordedChunksRef w; timerRef := timerRef w;
     stopwatchRef := stopwatchRef w; now := now w; timers := timers w;
     nextTimerId := nextTimerId w; streams := streams w;
     recorders := recorders w; tasks := tasks w;
     pendingRequest := pendingRequest w; objectURLs := objectURLs w;
     nextBlobId := nextBlobId w; fired := fired w; calls := calls w |}.

Definition set_recordedChunksRef (v : list Blob) (w : World) : World :=
  {| status := status w; mediaStream := mediaStream w;
     recordedVideoUrl := recordedVideoUrl w; error := error w;
     duration := duration w; elapsedTime := elapsedTime w;
     videoSrcObject := videoSrcObject w;
     mediaRecorderRef := mediaRecorderRef w; recordedChunksRef := v;
     timerRef := timerRef w; stopwatchRef := stopwatchRef w; now := now w;
     timers := timers w; nextTimerId := nextTimerId w; streams := streams w;
     recorders := recorders w; tasks := tasks w;
     pendingRequest := pendingRequest w; objectURLs := objectURLs w;
     nextBlobId := nextBlobId w; fired := fired w; calls := calls w |}.

Definition set_timerRef (v : option positive) (w : World) : World :=
  {| status := status w; mediaStream := mediaStream w;
     recordedVideoUrl := recordedVideoUrl w; error := error w;
     duration := duration w; elapsedTime := elapsedTime w;
     videoSrcObject := videoSrcObject w;
     mediaRecorderRef := mediaRecorderRef w;
     recordedChunksRef := recordedChunksRef w; timerRef := v;
     stopwatchRef := stopwatchRef w; now := now w; timers := timers w;
     nextTimerId := nextTimerId w; streams := streams w;
     recorders := recorders w; tasks := tasks w;
     pendingRequest := pendingRequest w; objectURLs := objectURLs w;
     nextBlobId := nextBlobId w; fired := fired w; calls := calls w |}.

Definition set_stopwatchRef (v : option positive) (w : World) : World :=
  {| status := status w; mediaStream := mediaStream w;
     recordedVideoUrl := recordedVideoUrl w; error := error w;
     duration := duration w; elapsedTime := elapsedTime w;
     videoSrcObject := videoSrcObject w;
     mediaRecorderRef := mediaRecorderRef w;
     recordedChunksRef := recordedChunksRef w; timerRef := timerRef w;
     stopwatchRef := v; now := now w; timers := timers w;
     nextTimerId := nextTimerId w; streams := streams w;
     recorders := recorders w; tasks := tasks w;
     pendingRequest := pendingRequest w; objectURLs := objectURLs w;
     nextBlobId := nextBlobId w; fired := fired w; calls := calls w |}.

Definition set_now (v : Z) (w : World) : World :=
  {| status := status w; mediaStream := mediaStream w;
     recordedVideoUrl := recordedVideoUrl w; error := error w;
     duration := duration w; elapsedTime := elapsedTime w;
     videoSrcObject := videoSrcObject w;
     mediaRecorderRef := mediaRecorderRef w;
     recordedChunksRef := recordedChunksRef w; timerRef := timerRef w;
     stopwatchRef := stopwatchRef w; now := v; timers := timers w;
     nextTimerId := nextTimerId w; streams := streams w;
     recorders := recorders w; tasks := tasks w;
     pendingRequest := pendingRequest w; objectURLs := objectURLs w;
     nextBlobId := nextBlobId w; fired := fired w; calls := calls w |}.

Definition set_timers (v : list Timer) (w : World) : World :=
  {| status := status w; mediaStream := mediaStream w;
     recordedVideoUrl := recordedVideoUrl w; error := error w;
     duration := duration w; elapsedTime := elapsedTime w;
     videoSrcObject := videoSrcObject w;
     mediaRecorderRef := mediaRecorderRef w;
     recordedChunksRef := recordedChunksRef w; timerRef := timerRef w;
     stopwatchRef := stopwatchRef w; now := now w; timers := v;
     nextTimerId := nextTimerId w; streams := streams w;
     recorders := recorders w; tasks := tasks w;
     pendingRequest := pendingRequest w; objectURLs := objectURLs w;
     nextBlobId := nextBlobId w; fired := fired w; calls := calls w |}.

Definition set_nextTimerId (v : positive) (w : World) : World :=
  {| status := status w; mediaStream := mediaStream w;
     recordedVideoUrl := recordedVideoUrl w; error := error w;
     duration := duration w; elapsedTime := elapsedTime w;
     videoSrcObject := videoSrcObject w;
     mediaRecorderRef := mediaRecorderRef w;
     recordedChunksRef := recordedChunksRef w; timerRef := timerRef w;
     stopwatchRef := stopwatchRef w; now := now w; timers := timers w;
     nextTimerId := v; streams := streams w; recorders := recorders w;
     tasks := tasks w; pendingRequest := pendingRequest w;
     objectURLs := objectURLs w; nextBlobId := nextBlobId w;
     fired := fired w; calls := calls w |}.

Definition set_streams (v : gmap nat (list TrackState)) (w : World) : World :=
  {| status := status w; mediaStream := mediaStream w;
     recordedVideoUrl := recordedVideoUrl w; error := error w;
     duration := duration w; elapsedTime := elapsedTime w;
     videoSrcObject := videoSrcObject w;
     mediaRecorderRef := mediaRecorderRef w;
     recordedChunksRef := recordedChunksRef w; timerRef := timerRef w;
     stopwatchRef := stopwatchRef w; now := now w; timers := timers w;
     nextTimerId := nextTimerId w; streams := v; recorders := recorders w;
     tasks := tasks w; pendingRequest := pendingRequest w;
     objectURLs := objectURLs w; nextBlobId := nextBlobId w;
     fired := fired w; calls := calls w |}.

Definition set_recorders (v : gmap nat MediaRecorder) (w : World) : World :=
  {| status := status w; mediaStream := mediaStream w;
     recordedVideoUrl := recordedVideoUrl w; error := error w;
     duration := duration w; elapsedTime := elapsedTime w;
     videoSrcObject := videoSrcObject w;
     mediaRecorderRef := mediaRecorderRef w;
     recordedChunksRef := recordedChunksRef w; timerRef := timerRef w;
     stopwatchRef := stopwatchRef w; now := now w; timers := timers w;
     nextTimerId := nextTimerId w; streams := streams w; recorders := v;
     tasks := tasks w; pendingRequest := pendingRequest w;
     objectURLs := objectURLs w; nextBlobId := nextBlobId w;
     fired := fired w; calls := calls w |}.

Definition set_tasks (v : list Task) (w : World) : World :=
  {| status := status w; mediaStream := mediaStream w;
     recordedVideoUrl := recordedVideoUrl w; error := error w;
     duration := duration w; elapsedTime := elapsedTime w;
     videoSrcObject := videoSrcObject w;
     mediaRecorderRef := mediaRecorderRef w;
     recordedChunksRef := recordedChunksRef w; timerRef := timerRef w;
     stopwatchRef := stopwatchRef w; now := now w; timers := timers w;
     nextTimerId := nextTimerId w; streams := streams w;
     recorders := recorders w; tasks := v;
     pendingRequest := pendingRequest w; objectURLs := objectURLs w;
     nextBlobId := nextBlobId w; fired := fired w; calls := calls w |}.

Definition set_pendingRequest (v : option MediaStreamConstraints) (w : World) : World :=
  {| status := status w; mediaStream := mediaStream w;
     recordedVideoUrl := recordedVideoUrl w; error := error w;
     duration := duration w; elapsedTime := elapsedTime w;
     videoSrcObject := videoSrcObject w;
     mediaRecorderRef := mediaRecorderRef w;
     recordedChunksRef := recordedChunksRef w; timerRef := timerRef w;
     stopwatchRef := stopwatchRef w; now := now w; timers := timers w;
     nextTimerId := nextTimerId w; streams := streams w;
     recorders := recorders w; tasks := tasks w; pendingRequest := v;
     objectURLs := objectURLs w; nextBlobId := nextBlobId w;
     fired := fired w; calls := calls w |}.

Definition set_objectURLs (v : gmap string Blob) (w : World) : World :=
  {| status := status w; mediaStream := mediaStream w;
     recordedVideoUrl := recordedVideoUrl w; error := error w;
     duration := duration w; elapsedTime := elapsedTime w;
     videoSrcObject := videoSrcObject w;
     mediaRecorderRef := mediaRecorderRef w;
     recordedChunksRef := recordedChunksRef w; timerRef := timerRef w;
     stopwatchRef := stopwatchRef w; now := now w; timers := timers w;
     nextTimerId := nextTimerId w; streams := streams w;
     recorders := recorders w; tasks := tasks w;
     pendingRequest := pendingRequest w; objectURLs := v;
     nextBlobId := nextBlobId w; fired := fired w; calls := calls w |}.

Definition set_nextBlobId (v : nat) (w : World) : World :=
  {| status := status w; mediaStream := mediaStream w;
     recordedVideoUrl := recordedVideoUrl w; error := error w;
     duration := duration w; elapsedTime := elapsedTime w;
     videoSrcObject := videoSrcObject w;
     mediaRecorderRef := mediaRecorderRef w;
     recordedChunksRef := recordedChunksRef w; timerRef := timerRef w;
     stopwatchRef := stopwatchRef w; now := now w; timers := timers w;
     nextTimerId := nextTimerId w; streams := streams w;
     recorders := recorders w; tasks := tasks w;
     pendingRequest := pendingRequest w; objectURLs := objectURLs w;
     nextBlobId := v; fired := fired w; calls := calls w |}.

Definition set_fired (v : list TimerCallback) (w : World) : World :=
  {| status := status w; mediaStream := mediaStream w;
     recordedVideoUrl := recordedVideoUrl w; error := error w;
     duration := duration w; elapsedTime := elapsedTime w;
     videoSrcObject := videoSrcObject w;
     mediaRecorderRef := mediaRecorderRef w;
     recordedChunksRef := recordedChunksRef w; timerRef := timerRef w;
     stopwatchRef := stopwatchRef w; now := now w; timers := timers w;
     nextTimerId := nextTimerId w; streams := streams w;
     recorders := recorders w; tasks := tasks w;
     pendingRequest := pendingRequest w; objectURLs := objectURLs w;
     nextBlobId := nextBlobId w; fired := v; calls := calls w |}.

Definition set_calls (v : list Call) (w : World) : World :=
  {| status := status w; mediaStream := mediaStream w;
     recordedVideoUrl := recordedVideoUrl w; error := error w;
     duration := duration w; elapsedTime := elapsedTime w;
     videoSrcObject := videoSrcObject w;
     mediaRecorderRef := mediaRecorderRef w;
     recordedChunksRef := recordedChunksRef w; timerRef := timerRef w;
     stopwatchRef := stopwatchRef w; now := now w; timers := timers w;
     nextTimerId := nextTimerId w; streams := streams w;
     recorders := recorders w; tasks := tasks w;
     pendingRequest := pendingRequest w; objectURLs := objectURLs w;
     nextBlobId := nextBlobId w; fired := fired w; calls := v |}.

Definition log (c : Call) (w : World) : World :=
  set_calls (calls w ++ [c]) w.

(** The freshly mounted component: the initial values of lines 20-31 in a
    browser that holds nothing yet. *)
Definition init : World :=
  {| status := idle; mediaStream := None; recordedVideoUrl := None;
     error := None; duration := JNum 1; elapsedTime := 0;
     videoSrcObject := None; mediaRecorderRef := None;
     recordedChunksRef := []; timerRef := None; stopwatchRef := None;
     now := 0; timers := []; nextTimerId := 1%positive; streams := ∅;
     recorders := ∅; tasks := []; pendingRequest := None; objectURLs := ∅;
     nextBlobId := 0%nat; fired := []; calls := [] |}.

(** *** Browser operations *)

(** [navigator.mediaDevices.getUserMedia(c)]: the answer is the browser's
    (and the user's), given here by [gum].  A granted request creates a new
    stream whose tracks are all live; a rejected one creates nothing. *)
Definition getUserMedia (gum : MediaStreamConstraints → GumResult)
    (c : MediaStreamConstraints) (w : World) : (string + nat) * World :=
  let w := log (call_getUserMedia c) w in
  match gum c with
  | granted n =>
      let s := size (streams w) in
      (inr s, set_streams (<[s := replicate n live]> (streams w)) w)
  | rejected name => (inl name, w)
  end.

(** The conversion of an integer to the IDL type [long], a signed 32-bit
    integer: the value modulo 2^32, taken in [-2^31, 2^31). *)
Definition toInt32 (z : Z) : Z :=
  let m := z mod 2 ^ 32 in
  if 2 ^ 31 <=? m then m - 2 ^ 32 else m.

(** The delay a timer gets: the [timeout] argument is a [long], [NaN]
    converts to 0, and a negative timeout counts as 0.  So a delay of more
    than [maxTimerDelay] milliseconds is not kept: from 2^31 to 2^32 - 1
    it becomes 0. *)
Definition timerDelay (delay : JsNumber) : Z :=
  match delay with
  | JNum z => Z.max 0 (toInt32 z)
  | JNaN => 0
  end.


(** [window.setTimeout(cb, delay)]: a one-shot timer due [timerDelay delay]
    milliseconds from now. *)
Definition setTimeout (cb : TimerCallback) (delay : JsNumber) (w : World)
    : positive * World :=
  let d := timerDelay delay in
  let id := nextTimerId w in
  let w := log (call_setTimeout id cb d) w in
  let w := set_timers (timers w ++ [mkTimer id (now w + d) None cb]) w in
  (id, set_nextTimerId (Pos.succ id) w).

(** [window.setInterval(cb, period)]. *)
Definition setInterval (cb : TimerCallback) (period : Z) (w : World)
    : positive * World :=
  let id := nextTimerId w in
  let w := log (call_setInterval id cb period) w in
  let w :=
    set_timers (timers w ++ [mkTimer id (now w + period) (Some period) cb]) w in
  (id, set_nextTimerId (Pos.succ id) w).

Definition removeTimer (id : positive) (ts : list Timer) : list Timer :=
  List.filter (λ t, negb (Pos.eqb (t_id t) id)) ts.

(** [clearTimeout(id)] and [clearInterval(id)]: the timer, if still
    pending, is dropped. *)
Definition clearTimeout (id : positive) (w : World) : World :=
  let w := log (call_clearTimeout id) w in
  set_timers (removeTimer id (timers w)) w.

Definition clearInterval (id : positive) (w : World) : World :=
  let w := log (call_clearInterval id) w in
  set_timers (removeTimer id (timers w)) w.

(** [new MediaRecorder(stream)]: a recorder in state [inactive]. *)
Definition new_MediaRecorder (s : nat) (w : World) : nat * World :=
  let w := log (call_new_MediaRecorder s) w in
  let r := size (recorders w) in
  (r, set_recorders (<[r := mkRecorder s rs_inactive]> (recorders w)) w).

(** [recorder.start()]. *)
Definition recorder_start (r : nat) (w : World) : World :=
  let w := log (call_recorder_start r) w in
  set_recorders (alter (λ m, mkRecorder (rec_stream m) rs_recording) r
                   (recorders w)) w.

(** [URL.createObjectURL(blob)]: a fresh, non-empty locator. *)
Definition createObjectURL (b : Blob) (w : World) : string * World :=
  let url := "blob:" +:+ pretty (nextBlobId w) in
  let w := log (call_createObjectURL url) w in
  let w := set_objectURLs (<[url := b]> (objectURLs w)) w in
  (url, set_nextBlobId (S (nextBlobId w)) w).

(** [URL.revokeObjectURL(url)]. *)
Definition revokeObjectURL (url : string) (w : World) : World :=
  let w := log (call_revokeObjectURL url) w in
  set_objectURLs (delete url (objectURLs w)) w.

(** [stream.getTracks().forEach(track => track.stop())]. *)
Definition stopTracks (s : nat) (w : World) : World :=
  let w := log (call_track_stop s) w in
  set_streams (alter (map (λ _, ended)) s (streams w)) w.

(** *** The component's handlers *)

Section Handlers.

(** What recorder [r] has captured when it is stopped: the blob carried by
    its final [dataavailable] event.  It is the browser's to decide. *)
Variable gathered : nat → Blob.

(** [recorder.stop()]: an active recorder becomes [inactive] at once, and
    the browser queues a [dataavailable] event with the captured data
    followed by a [stop] event.  Nothing happens on an inactive one. *)
Definition recorder_stop (r : nat) (w : World) : World :=
  let w := log (call_recorder_stop r) w in
  match recorders w !! r with
  | Some m =>
      match rec_state m with
      | rs_inactive => w
      | _ =>
          let w :=
            set_recorders
              (<[r := mkRecorder (rec_stream m) rs_inactive]> (recorders w)) w in
          set_tasks (tasks w ++ [ev_dataavailable r (gathered r); ev_stop r]) w
      end
  | None => w
  end.

(** The capture source of recorder [r] ends while it records (the camera
    is unplugged, the permission withdrawn): the tracks of its stream are
    ended and the recorder stops by itself, with the same two events as
    after [stop()].  The component makes no call and is told through the
    events only. *)
Definition recorder_sourceEnded (r : nat) (w : World) : World :=
  match recorders w !! r with
  | Some m =>
      match rec_state m with
      | rs_inactive => w
      | _ =>
          let w :=
            set_streams
              (alter (map (λ _, ended)) (rec_stream m) (streams w)) w in
          let w :=
            set_recorders
              (<[r := mkRecorder (rec_stream m) rs_inactive]> (recorders w)) w in
          set_tasks (tasks w ++ [ev_dataavailable r (gathered r); ev_stop r]) w
      end
  | None => w
  end.

(** The preview element exists only while the component renders the
    [ready] or [recording] view (line 160). *)
Definition videoMounted (s : RecordingStatus) : bool :=
  match s with
  | ready | recording => true
  | _ => false
  end.

Definition permissionError : string :=
  "Could not access camera and microphone. Please check permissions in your browser settings.".

(** Lines 49-53: the body of the outer [try] after a stream was obtained. *)
Definition permissionGranted (s : nat) (w : World) : World :=
  let w := set_mediaStream (Some s) w in
  let w := if videoMounted (status w) then set_videoSrcObject (Some s) w else w in
  set_status ready w.

(** [handleRequestPermission], lines 33-59, with both awaited promises
    answered at once by [gum].  The handler in the steps the browser runs
    it in, resting in [permission_pending] between them, is
    [requestPermission_begin] and [requestPermission_settle] below. *)
Definition handleRequestPermission (gum : MediaStreamConstraints → GumResult)
    (w : World) : World :=
  let w := set_status permission_pending w in
  let w := set_error None w in
  let videoConstraints := video_facing "environment" in
  match getUserMedia gum (mkConstraints videoConstraints true) w with
  | (inr stream, w) => permissionGranted stream w
  | (inl _, w) =>
      match getUserMedia gum (mkConstraints video_any true) w with
      | (inr stream, w) => permissionGranted stream w
      | (inl _, w) =>
          let w := set_error (Some permissionError) w in
          set_status idle w
      end
  end.

(** [handleRequestPermission] up to its first [await], lines 34-42: the
    first request is made and the component rests in [permission_pending]
    until the browser answers. *)
Definition requestPermission_begin (w : World) : World :=
  let w := set_status permission_pending w in
  let w := set_error None w in
  let c := mkConstraints (video_facing "environment") true in
  set_pendingRequest (Some c) (log (call_getUserMedia c) w).

(** The browser answers the request that is waiting.  A grant creates the
    stream and the handler goes on with lines 49-53; a rejection of the
    first request makes the fallback request (line 46) and the component
    waits again; a rejection of the fallback runs the outer [catch], lines
    55-57. *)
Definition requestPermission_settle (answer : GumResult) (w : World)
    : World :=
  match pendingRequest w with
  | None => w
  | Some c =>
      let w := set_pendingRequest None w in
      match answer with
      | granted n =>
          let s := size (streams w) in
          let w := set_streams (<[s := replicate n live]> (streams w)) w in
          permissionGranted s w
      | rejected _ =>
          match video c with
          | video_facing _ =>
              let c' := mkConstraints video_any true in
              set_pendingRequest (Some c') (log (call_getUserMedia c') w)
          | video_any =>
              let w := set_error (Some permissionError) w in
              set_status idle w
          end
      end
  end.

(** [startStopwatch], lines 61-66. *)
Definition startStopwatch (w : World) : World :=
  let w := set_elapsedTime 0 w in
  let '(id, w) := setInterval cb_stopwatch 1000 w in
  set_stopwatchRef (Some id) w.

(** [stopStopwatch], lines 68-73. *)
Definition stopStopwatch (w : World) : World :=
  match stopwatchRef w with
  | Some id =>
      let w := clearInterval id w in
      set_stopwatchRef None w
  | None => w
  end.

(** [handleStopRecording], lines 76-84. *)
Definition handleStopRecording (w : World) : World :=
  match mediaRecorderRef w with
  | Some r =>
      match recorders w !! r with
      | Some m =>
          match rec_state m with
          | rs_recording =>
              let w := recorder_stop r w in
              match timerRef w with
              | Some id =>
                  let w := clearTimeout id w in
                  set_timerRef None w
              | None => w
              end
          | _ => w
          end
      | None => w
      end
  | None => w
  end.

(** [handleStartRecording], lines 86-119.  The handlers installed on the
    recorder are [recorder_ondataavailable] and [recorder_onstop] below. *)
Definition handleStartRecording (w : World) : World :=
  match mediaStream w with
  | None => w
  | Some s =>
      let w := set_status recording w in
      let w := set_recordedChunksRef [] w in
      let '(recorder, w) := new_MediaRecorder s w in
      let w := set_mediaRecorderRef (Some recorder) w in
      let w := recorder_start recorder w in
      let w := startStopwatch w in
      if js_gt (duration w) (JNum 0) then
        let '(id, w) :=
          setTimeout cb_autoStop
            (js_mul (js_mul (duration w) (JNum 60)) (JNum 1000)) w in
        set_timerRef (Some id) w
      else w
  end.

(** [recorder.ondataavailable], lines 94-98. *)
Definition recorder_ondataavailable (data : Blob) (w : World) : World :=
  if blob_size data >? 0
  then set_recordedChunksRef (recordedChunksRef w ++ [data]) w
  else w.

(** [recorder.onstop], lines 100-108; [s] is the [mediaStream] the closure
    captured, the stream the recorder was built on. *)
Definition recorder_onstop (s : nat) (w : World) : World :=
  let blob := new_Blob (recordedChunksRef w) "video/webm" in
  let '(url, w) := createObjectURL blob w in
  let w := set_recordedVideoUrl (Some url) w in
  let w := set_status finished w in
  let w := stopStopwatch w in
  let w := stopTracks s w in
  set_mediaStream None w.

(** [handleNewRecording], lines 131-139. *)
Definition handleNewRecording (w : World) : World :=
  let w :=
    match recordedVideoUrl w with
    | Some url => if truthy url then revokeObjectURL url w else w
    | None => w
    end in
  let w := set_recordedVideoUrl None w in
  let w := set_status idle w in
  let w := set_error None w in
  set_elapsedTime 0 w.

(** The duration input's [onChange], line 180. *)
Definition duration_onChange (value : string) (w : World) : World :=
  set_duration (Math_max (JNum 1) (parseInt value)) w.

(** *** The event loop *)

(** Delivery of one queued event to the handlers of its recorder. *)
Definition runTask (t : Task) (w : World) : World :=
  match t with
  | ev_dataavailable _ data => recorder_ondataavailable data w
  | ev_stop r =>
      match recorders w !! r with
      | Some m => recorder_onstop (rec_stream m) w
      | None => w
      end
  end.

(** The browser delivers the oldest queued event. *)
Definition deliver (w : World) : World :=
  match tasks w with
  | [] => w
  | t :: rest => runTask t (set_tasks rest w)
  end.

(** All queued events, oldest first. *)
Definition runTasks (w : World) : World :=
  fold_left (λ w t, runTask t w) (tasks w) (set_tasks [] w).

Definition runCallback (cb : TimerCallback) (w : World) : World :=
  match cb with
  | cb_autoStop => handleStopRecording w
  | cb_stopwatch => set_elapsedTime (elapsedTime w + 1) w
  end.

Definition pending (id : positive) (w : World) : bool :=
  existsb (λ t, Pos.eqb (t_id t) id) (timers w).

Definition rearm (id : positive) (p : Z) (ts : list Timer) : list Timer :=
  map (λ t, if Pos.eqb (t_id t) id
            then mkTimer (t_id t) (t_due t + p) (t_period t) (t_cb t)
            else t) ts.

(** A due timer fires unless an earlier callback cleared it: a timeout
    leaves the pending list, an interval is re-armed one period later, and
    the callback runs. *)
Definition fireTimer (t : Timer) (w : World) : World :=
  if pending (t_id t) w then
    let ts :=
      match t_period t with
      | None => removeTimer (t_id t) (timers w)
      | Some p => rearm (t_id t) p (timers w)
      end in
    let w := set_timers ts w in
    let w := set_fired (fired w ++ [t_cb t]) w in
    runCallback (t_cb t) w
  else w.

(** One millisecond passes; the timers that have become due fire in the
    order they were armed. *)
Definition elapse (w : World) : World :=
  let w := set_now (now w + 1) w in
  let due := List.filter (λ t, t_due t <=? now w) (timers w) in
  fold_left (λ w t, fireTimer t w) due w.

(** One millisecond of an otherwise idle page: timers, then the events
    they caused. *)
Definition tick (w : World) : World := runTasks (elapse w).

Fixpoint advance (ms : nat) (w : World) : World :=
  match ms with
  | O => w
  | S k => advance k (tick w)
  end.

(** *** Vocabulary of the specification *)

Definition is_stop (c : Call) : bool :=
  match c with call_recorder_stop _ => true | _ => false end.

Definition is_setTimeout (c : Call) : bool :=
  match c with call_setTimeout _ _ _ => true | _ => false end.

Definition is_createObjectURL (c : Call) : bool :=
  match c with call_createObjectURL _ => true | _ => false end.

Definition is_getUserMedia (c : Call) : bool :=
  match c with call_getUserMedia _ => true | _ => false end.

(** How many times [recorder.stop()] has been called. *)
Definition stopCalls (w : World) : nat :=
  length (List.filter is_stop (calls w)).

(** How many timeouts have been armed. *)
Definition timeoutCalls (w : World) : nat :=
  length (List.filter is_setTimeout (calls w)).

(** How many artifacts (blob URLs) have been produced. *)
Definition artifacts (w : World) : nat :=
  length (List.filter is_createObjectURL (calls w)).

(** How many finalize ([stop]) events are queued. *)
Definition finalizeEvents (w : World) : nat :=
  length (List.filter (λ t, match t with ev_stop _ => true | _ => false end)
            (tasks w)).

(** How many times the auto-stop callback has run. *)
Definition autoStops (w : World) : nat :=
  length (List.filter (λ cb, match cb with cb_autoStop => true | _ => false end)
            (fired w)).

(** The capture source is actively capturing: the guard of line 77. *)
Definition capturing (w : World) : bool :=
  match mediaRecorderRef w with
  | Some r =>
      match recorders w !! r with
      | Some m =>
          match rec_state m with rs_recording => true | _ => false end
      | None => false
      end
  | None => false
  end.

Definition stopwatchTimer (id : positive) (due : Z) : Timer :=
  mkTimer id due (Some 1000) cb_stopwatch.

Definition autoStopTimer (id : positive) (due : Z) : Timer :=
  mkTimer id due None cb_autoStop.

(** The worlds the component can be in (lines 149-206): each button exists
    only in the status that shows it; a permission request rests in
    [permission_pending] until the browser answers it; the browser may let
    a millisecond pass, deliver a queued event or end the capture source
    of a recorder at any time.  [typed] says which values the duration
    input is given.  (The download button changes nothing in the world.) *)
Inductive reachableWith (typed : string → Prop) : World → Prop :=
  | reach_init : reachableWith typed init
  | reach_requestPermission w :
      reachableWith typed w → status w = idle →
      reachableWith typed (requestPermission_begin w)
  | reach_permissionAnswer answer w :
      reachableWith typed w → status w = permission_pending →
      reachableWith typed (requestPermission_settle answer w)
  | reach_durationChange value w :
      reachableWith typed w → status w = ready → typed value →
      reachableWith typed (duration_onChange value w)
  | reach_startRecording w :
      reachableWith typed w → status w = ready →
      reachableWith typed (handleStartRecording w)
  | reach_stopRecording w :
      reachableWith typed w → status w = recording →
      reachableWith typed (handleStopRecording w)
  | reach_newRecording w url :
      reachableWith typed w → status w = finished →
      recordedVideoUrl w = Some url → truthy url = true →
      reachableWith typed (handleNewRecording w)
  | reach_sourceEnded r w :
      reachableWith typed w →
      reachableWith typed (recorder_sourceEnded r w)
  | reach_elapse w : reachableWith typed w → reachableWith typed (elapse w)
  | reach_deliver w : reachableWith typed w → reachableWith typed (deliver w).

(** The worlds the component can be in, whatever is typed. *)
Definition reachable : World → Prop := reachableWith (λ _, True).


(** Permission is granted with [n] tracks, at the first request or, that
    one rejected, at the fallback. *)
Definition permitted (gum : MediaStreamConstraints → GumResult) (n : nat)
    : Prop :=
  gum (mkConstraints (video_facing "environment") true) = granted n
  ∨ ((∃ e, gum (mkConstraints (video_facing "environment") true) = rejected e)
     ∧ gum (mkConstraints video_any true) = granted n).

(** The first testable property's session up to the finished recording:
    permission, the values typed into the duration input while the
    component is [ready], start, [ms] milliseconds of recording, stop, and
    the delivery of the finalize events. *)
Definition recordingSession (gum : MediaStreamConstraints → GumResult)
    (edits : list string) (ms : nat) (w : World) : World :=
  let w := handleRequestPermission gum w in
  let w := fold_left (λ w v, duration_onChange v w) edits w in
  let w := handleStartRecording w in
  let w := advance ms w in
  let w := handleStopRecording w in
  runTasks w.

(** The whole session: the recording, then NewSession. *)
Definition session (gum : MediaStreamConstraints → GumResult)
    (edits : list string) (ms : nat) (w : World) : World :=
  handleNewRecording (recordingSession gum edits ms w).

(** The pending auto-stop timeout, if one was armed: its id and due time. *)
Definition autoTimers (auto : option (positive * Z)) : list Timer :=
  match auto with
  | Some (T, D) => [autoStopTimer T D]
  | None => []
  end.

(** What the stop handler, the timers and the passing of time leave
    alone. *)
Definition sameSession (w w' : World) : Prop :=
  status w' = status w ∧ mediaStream w' = mediaStream w
  ∧ recordedVideoUrl w' = recordedVideoUrl w ∧ error w' = error w
  ∧ duration w' = duration w ∧ streams w' = streams w
  ∧ objectURLs w' = objectURLs w ∧ nextBlobId w' = nextBlobId w
  ∧ recordedChunksRef w' = recordedChunksRef w.

(** Nothing is scheduled: no pending timer, no queued event. *)
Definition quiescent (w : World) : Prop :=
  timers w = [] ∧ tasks w = [].

(** A capture in progress: recorder [r], built on stream [s], is
    recording; the stopwatch [sw] is pending and so is the auto-stop
    timeout [auto] (its id and due time) when one was armed, and nothing
    else is. *)
Record Capturing (r s : nat) (sw : positive) (auto : option (positive * Z))
    (w : World) : Prop := mkCapturing {
  cap_status : status w = recording;
  cap_stream : mediaStream w = Some s;
  cap_ref : mediaRecorderRef w = Some r;
  cap_recorder : recorders w !! r = Some (mkRecorder s rs_recording);
  cap_tasks : tasks w = [];
  cap_stopwatch : stopwatchRef w = Some sw;
  cap_timers :
    ∃ due, now w < due
      ∧ timers w = stopwatchTimer sw due :: autoTimers auto;
  cap_auto :
    match auto with
    | Some (T, D) => T ≠ sw ∧ timerRef w = Some T ∧ now w ≤ D
    | None => True
    end
}.

(** A capture that has been finalized: the component is [finished] with a
    locator for the artifact, the recorder is inactive, nothing is
    scheduled, and with respect to the stream store [streams0] and the
    locator store [urls0] from before the finalize event, the tracks of
    [s] are ended and one locator was added. *)
Record Finalized (r s : nat) (streams0 : gmap nat (list TrackState))
    (urls0 : gmap string Blob) (w : World) : Prop := mkFinalized {
  fin_status : status w = finished;
  fin_stream : mediaStream w = None;
  fin_ref : mediaRecorderRef w = Some r;
  fin_recorder : recorders w !! r = Some (mkRecorder s rs_inactive);
  fin_quiescent : quiescent w;
  fin_streams : streams w = alter (map (λ _, ended)) s streams0;
  fin_url :
    ∃ url blob, recordedVideoUrl w = Some url ∧ truthy url = true
      ∧ objectURLs w = <[url := blob]> urls0
}.

(** What holds of the timers, the queued events and the recorders in
    every world the component can be in.  Timer ids are distinct and were
    handed out by the browser; a pending stopwatch is the one the
    component remembers, and the component is then [recording]; the other
    pending timers are one-shot auto-stops.  Events are queued only for
    the recorder in use, stopped while the component still shows
    [recording]; a recorder that records is the one in use; and a
    permission request waits only while the component is
    [permission_pending]. *)
Record Orderly (w : World) : Prop := mkOrderly {
  ord_nodup : NoDup (map t_id (timers w));
  ord_fresh : Forall (λ t, (t_id t < nextTimerId w)%positive) (timers w);
  ord_kinds :
    Forall (λ t, match t_cb t with
                 | cb_stopwatch =>
                     t_period t = Some 1000 ∧ status w = recording
                     ∧ stopwatchRef w = Some (t_id t)
                 | cb_autoStop => t_period t = None
                 end) (timers w);
  ord_tasks :
    tasks w = []
    ∨ (status w = recording
       ∧ ∃ r m, mediaRecorderRef w = Some r ∧ recorders w !! r = Some m
           ∧ rec_state m = rs_inactive
           ∧ (tasks w = [ev_stop r]
              ∨ ∃ data, tasks w = [ev_dataavailable r data; ev_stop r]));
  ord_recorders :
    ∀ r m, recorders w !! r = Some m →
      rec_state m = rs_inactive
      ∨ (rec_state m = rs_recording ∧ status w = recording
         ∧ mediaRecorderRef w = Some r ∧ tasks w = []);
  ord_pending : status w ≠ permission_pending → pendingRequest w = None
}.

(** The timers after a timer was dropped or re-armed. *)
Inductive timersStep (ts : list Timer) : list Timer → Prop :=
  | step_same : timersStep ts ts
  | step_drop id : timersStep ts (removeTimer id ts)
  | step_rearm id p : timersStep ts (rearm id p ts).


(** [NewSession] as the specification words it: the locator revoked and
    every session attribute back to its initial value. *)
Definition clearsAllAttributes (w : World) : Prop :=
  let w' := handleNewRecording w in
  (∀ url, recordedVideoUrl w = Some url → objectURLs w' !! url = None)
  ∧ recordedVideoUrl w' = recordedVideoUrl init
  ∧ error w' = error init
  ∧ elapsedTime w' = elapsedTime init
  ∧ recordedChunksRef w' = recordedChunksRef init
  ∧ duration w' = duration init
  ∧ status w' = idle.

End Handlers.

(** *** Sample browsers, used to run the model on concrete inputs *)

Definition sampleData : nat → Blob :=
  λ _, mkBlob [Byte.x1a; Byte.x45; Byte.xdf; Byte.xa3] "video/webm".

Definition grantAll : MediaStreamConstraints → GumResult :=
  λ _, granted 2.

Definition denyAll : MediaStreamConstraints → GumResult :=
  λ _, rejected "NotAllowedError".

Definition rearMissing : MediaStreamConstraints → GumResult :=
  λ c, match video c with
       | video_facing _ => rejected "OverconstrainedError"
       | video_any => granted 2
       end.

(** The component after a granted permission request. *)
Definition sampleReady : World := handleRequestPermission grantAll init.

(** Two and a half seconds into a recording. *)
Definition sampleCapturing : World :=
  advance sampleData 2500 (handleStartRecording sampleReady).

(** A finished recording made with the duration set to 5 minutes. *)
Definition sampleFinished : World :=
  deliver
    (deliver
       (handleStopRecording sampleData
          (handleStartRecording (duration_onChange "5" sampleReady)))).


(** The permission prompt is open. *)
Definition samplePending : World := requestPermission_begin init.

(** A recording of one minute whose camera was unplugged at once: the
    recorder stopped by itself and its events were delivered. *)
Definition sampleUnplugged : World :=
  deliver
    (deliver
       (recorder_sourceEnded sampleData 0 (handleStartRecording sampleReady))).


End Recorder.

(** ** The inference client ([analyzeImageWithGemini]) *)

(** A [File] chosen by the user.  [file_id] stands for the identity of the
    JavaScript object: two selections give two objects. *)
Record File : Type := mkFile {
  file_id : nat;
  file_type : string;
  file_blob : Blob
}.

(** The module-level check of [API_KEY] (lines 5-9) runs once, when the
    module is loaded; it is not part of any call and is left out. *)

Module Gemini.

(** What a JavaScript computation can throw: an [Error] with its message,
    or any other value. *)
Inductive JsThrown : Type :=
  | js_Error (message : string)
  | js_other.

(** Outcome of an awaited promise or of a [try] block. *)
Inductive JsResult (A : Type) : Type :=
  | js_return (a : A)
  | js_throw (e : JsThrown).
Arguments js_return {A} a.
Arguments js_throw {A} e.

Definition js_bind {A B : Type} (r : JsResult A) (k : A → JsResult B)
    : JsResult B :=
  match r with
  | js_return a => k a
  | js_throw e => js_throw e
  end.

(** The request sent to the model: [contents.parts] of lines 39-53.  The
    image data is [split(',')[1]] of a data URL, [undefined] when the URL
    holds no comma. *)
Record GenerateContentRequest : Type := mkRequest {
  req_model : string;
  req_mimeType : string;
  req_data : option string;
  req_text : string
}.

(** [s.split(',')], with [cur] the piece being read, reversed. *)
Fixpoint splitComma (cur : string) (s : string) : list string :=
  match s with
  | EmptyString => [String.rev cur]
  | String c r =>
      if Ascii.eqb c ","%char
      then String.rev cur :: splitComma EmptyString r
      else splitComma (String c cur) r
  end.

Definition promptText : string :=
  "Describe this image in detail. What is happening, what are the objects, and what is the overall mood?".

Definition invalidKeyMessage : string :=
  "The configured API key is invalid. Please check your setup.".

Definition apiErrorPrefix : string :=
  "An error occurred while communicating with the API: ".

Definition unexpectedMessage : string :=
  "An unexpected error occurred during image analysis.".

Section Client.

(** The two things the client awaits: the [FileReader] (its [onload]
    result, or the event passed to [onerror]) and the model endpoint (the
    response text, or whatever the call throws). *)
Variable readAsDataURL : File → JsResult string.
Variable generateContent : GenerateContentRequest → JsResult string.

(** [fileToBase64], lines 16-28. *)
Definition fileToBase64 (file : File) : JsResult (option string) :=
  js_bind (readAsDataURL file)
    (λ dataUrl, js_return (splitComma EmptyString dataUrl !! 1%nat)).

(** The [try] block of [analyzeImageWithGemini], lines 37-55. *)
Definition requestDescription (imageFile : File) : JsResult string :=
  js_bind (fileToBase64 imageFile) (λ base64Image,
    generateContent
      (mkRequest "gemini-2.5-flash" (file_type imageFile) base64Image
         promptText)).

(** [analyzeImageWithGemini], lines 35-67: the [catch] block rethrows an
    [Error] in every case. *)
Definition analyzeImageWithGemini (imageFile : File) : JsResult string :=
  match requestDescription imageFile with
  | js_return text => js_return text
  | js_throw (js_Error message) =>
      if includes message "API key not valid"
      then js_throw (js_Error invalidKeyMessage)
      else js_throw (js_Error (apiErrorPrefix +:+ message))
  | js_throw js_other => js_throw (js_Error unexpectedMessage)
  end.

End Client.

End Gemini.

(** ** The image analysis widget ([ImageAnalyzer]) *)

Module Analyzer.

Import Gemini.

(** [type Status] (line 212). *)
Inductive Status : Type :=
  | idle
  | loading
  | success
  | error.

Record World : Type := mkWorld {
  (* useState cells, lines 228-231 *)
  file : option File;
  status : Status;
  result : string;
  errorText : string;
  (* useMemo cell, line 233: the value and the [file] it was computed for *)
  previewUrl : option string;
  previewDep : option File;
  (* the value of the file input, when the input is in the document *)
  fileInput : option string;
  (* browser: blob URL store *)
  objectURLs : gmap string Blob;
  nextBlobId : nat
}.

Definition init : World :=
  {| file := None; status := idle; result := EmptyString;
     errorText := EmptyString; previewUrl := None; previewDep := None;
     fileInput := Some EmptyString; objectURLs := ∅; nextBlobId := 0%nat |}.

(** [Object.is] on the memo's dependency. *)
Definition sameFile (a b : option File) : bool :=
  match a, b with
  | None, None => true
  | Some f, Some g => Nat.eqb (file_id f) (file_id g)
  | _, _ => false
  end.

(** Rendering: [useMemo] recomputes [previewUrl] when [file] has changed
    (line 233), and the file input is in the document exactly when no file
    is selected (line 275).  Nothing here revokes a locator. *)
Definition render (w : World) : World :=
  let input :=
    match file w with
    | None => Some (default EmptyString (fileInput w))
    | Some _ => None
    end in
  if sameFile (file w) (previewDep w) then
    {| file := file w; status := status w; result := result w;
       errorText := errorText w; previewUrl := previewUrl w;
       previewDep := previewDep w; fileInput := input;
       objectURLs := objectURLs w; nextBlobId := nextBlobId w |}
  else
    match file w with
    | Some f =>
        let url := "blob:" +:+ pretty (nextBlobId w) in
        {| file := file w; status := status w; result := result w;
           errorText := errorText w; previewUrl := Some url;
           previewDep := file w; fileInput := input;
           objectURLs := <[url := file_blob f]> (objectURLs w);
           nextBlobId := S (nextBlobId w) |}
    | None =>
        {| file := file w; status := status w; result := result w;
           errorText := errorText w; previewUrl := None;
           previewDep := None; fileInput := input;
           objectURLs := objectURLs w; nextBlobId := nextBlobId w |}
    end.

(** The four state cells written together, as every handler does. *)
Definition setCells (f : option File) (s : Status) (r e : string)
    (w : World) : World :=
  {| file := f; status := s; result := r; errorText := e;
     previewUrl := previewUrl w; previewDep := previewDep w;
     fileInput := fileInput w; objectURLs := objectURLs w;
     nextBlobId := nextBlobId w |}.

Definition setFileInput (v : option string) (w : World) : World :=
  {| file := file w; status := status w; result := result w;
     errorText := errorText w; previewUrl := previewUrl w;
     previewDep := previewDep w; fileInput := v;
     objectURLs := objectURLs w; nextBlobId := nextBlobId w |}.

(** [handleFileChange], lines 235-243; [selectedFile] is
    [event.target.files?.[0]]. *)
Definition handleFileChange (selectedFile : option File) (w : World) : World :=
  match selectedFile with
  | Some f => render (setCells (Some f) idle EmptyString EmptyString w)
  | None => w
  end.

(** [handleAnalyze], lines 245-261, with [client] the imported
    [analyzeImageWithGemini]; the awaited call is answered before any
    other event reaches the widget. *)
Definition handleAnalyze (client : File → JsResult string) (w : World)
    : World :=
  match file w with
  | None => w
  | Some f =>
      let w := render (setCells (file w) loading EmptyString EmptyString w) in
      match client f with
      | js_return analysisResult =>
          render (setCells (file w) success analysisResult (errorText w) w)
      | js_throw err =>
          let message :=
            match err with
            | js_Error m => m
            | js_other => "An unknown error occurred."
            end in
          render (setCells (file w) error (result w) message w)
      end
  end.

(** [handleClear], lines 263-271.  [document.getElementById] finds the
    file input only if it is in the document. *)
Definition handleClear (w : World) : World :=
  let w := setCells None idle EmptyString EmptyString w in
  let w :=
    match fileInput w with
    | Some _ => setFileInput (Some EmptyString) w
    | None => w
    end in
  render w.

(** The clear action as the specification words it: the widget reset and
    the preview locator of the selected file released. *)
Definition clearReleasesPreview (w : World) : Prop :=
  let w' := handleClear w in
  file w' = None ∧ status w' = idle
  ∧ result w' = EmptyString ∧ errorText w' = EmptyString
  ∧ ∀ url, previewUrl w = Some url → objectURLs w' !! url = None.

(** *** Sample inputs *)

Definition sampleFile : File :=
  mkFile 0 "image/png" (mkBlob [Byte.x89; Byte.x50; Byte.x4e; Byte.x47] "image/png").

(** The widget with [sampleFile] selected. *)
Definition sampleSelected : World := handleFileChange (Some sampleFile) init.

Definition sampleReader : File → JsResult string :=
  λ _, js_return "data:image/png;base64,iVBORw0KGgo=".

Definition invalidKeyEndpoint : GenerateContentRequest → JsResult string :=
  λ _, js_throw (js_Error "API key not valid. Please pass a valid API key.").

Definition overloadedEndpoint : GenerateContentRequest → JsResult string :=
  λ _, js_throw (js_Error "503 Service Unavailable").

End Analyzer.


(** ** The rest of the recorder component: display and download *)

Module RecorderView.

Import Recorder.

(** [n.toString()] for an integer [n]. *)
Definition toString (n : Z) : string := pretty n.

(** [s.padStart(target, pad)] with a one-character [pad]. *)
Definition padStart (target : nat) (pad : ascii) (s : string) : string :=
  String.concat EmptyString
    (replicate (target - String.length s) (String pad EmptyString)) +:+ s.

(** [formatTime], lines 141-145: [Math.floor(seconds / 60)] is the floor
    quotient and [seconds % 60] the remainder with the sign of [seconds].
    The code computes on doubles and prints with [Number.prototype.toString];
    for a safe integer that is this computation on integers, and past
    [MAX_SAFE_INTEGER] it is not (the quotient rounds, and from 1e21 on the
    number is printed with an exponent). *)
Definition formatTime (seconds : Z) : string :=
  let mins := padStart 2 "0" (toString (seconds / 60)) in
  let secs := padStart 2 "0" (toString (Z.rem seconds 60)) in
  mins +:+ ":" +:+ secs.

(** A string at which [parseInt] stops reading digits: it is empty or its
    first character is not a decimal digit. *)
Definition stops (s : string) : Prop :=
  match s with
  | EmptyString => True
  | String c _ => digitValue c = None
  end.

(** What the component renders, lines 147-208: the elements that depend on
    the state, in document order. *)
Inductive Control : Type :=
  | StartCameraButton
  | PermissionSpinner
  | ErrorParagraph (text : string)
  | PreviewVideo
  | RecordingBadge (clock : string)
  | DurationInput (value : JsNumber)
  | StartRecordingButton
  | StopRecordingButton
  | ResultVideo (src : string)
  | DownloadButton
  | RecordAnotherButton.

Definition isStatus (a b : RecordingStatus) : bool :=
  match a, b with
  | idle, idle | permission_pending, permission_pending | ready, ready
  | recording, recording | finished, finished => true
  | _, _ => false
  end.

(** [cond && element]. *)
Definition shown (cond : bool) (cs : list Control) : list Control :=
  if cond then cs else [].

Definition view (w : World) : list Control :=
  let st := status w in
  shown (isStatus st idle) [StartCameraButton]
  ++ shown (isStatus st permission_pending) [PermissionSpinner]
  ++ match error w with
     | Some e => shown (truthy e) [ErrorParagraph e]
     | None => []
     end
  ++ shown (isStatus st ready || isStatus st recording)
       ([PreviewVideo]
        ++ shown (isStatus st recording)
             [RecordingBadge (formatTime (elapsedTime w))]
        ++ shown (isStatus st ready) [DurationInput (duration w)]
        ++ shown (isStatus st ready) [StartRecordingButton]
        ++ shown (isStatus st recording) [StopRecordingButton])
  ++ match recordedVideoUrl w with
     | Some url =>
         shown (isStatus st finished && truthy url)
           [ResultVideo url; DownloadButton; RecordAnotherButton]
     | None => []
     end.

(** The buttons that move the lifecycle on. *)
Definition isAction (c : Control) : bool :=
  match c with
  | StartCameraButton | StartRecordingButton | StopRecordingButton
  | RecordAnotherButton => true
  | _ => false
  end.

(** The part of the document [handleDownload] touches: the children of
    [document.body] (node identities), the next identity the browser hands
    out, and the saves triggered so far (locator and file name). *)
Record Document : Type := mkDocument {
  body : list nat;
  nextNode : nat;
  saves : list (string * string)
}.

(** [handleDownload], lines 121-129; [isoNow] is
    [new Date().toISOString()]. *)
Definition handleDownload (isoNow : string) (w : World) (doc : Document)
    : Document :=
  match recordedVideoUrl w with
  | Some url =>
      if truthy url then
        (* const a = document.createElement('a') *)
        let a := nextNode doc in
        let href := url in
        let download := "recording-" +:+ isoNow +:+ ".webm" in
        (* document.body.appendChild(a) *)
        let children := body doc ++ [a] in
        (* a.click() *)
        let clicked := saves doc ++ [(href, download)] in
        (* document.body.removeChild(a) *)
        mkDocument (List.filter (λ n, negb (Nat.eqb n a)) children)
          (S (nextNode doc)) clicked
      else doc
  | None => doc
  end.

(** *** Vocabulary of the further properties *)

(** No camera or microphone track is live except those of the stream the
    component stores. *)
Definition tracksReleased (w : World) : Prop :=
  ∀ s trk, streams w !! s = Some trk →
    mediaStream w = Some s ∨ Forall (λ t, t = ended) trk.

(** While recording, the stored stream is the one the current recorder was
    built on. *)
Definition recorderOnStream (w : World) : Prop :=
  status w = recording →
  ∃ r m, mediaRecorderRef w = Some r ∧ recorders w !! r = Some m
         ∧ mediaStream w = Some (rec_stream m).



(** What the timers, the stop handler and the events leave alone or only
    let grow. *)
Definition sameRefs (w w' : World) : Prop :=
  videoSrcObject w' = videoSrcObject w
  ∧ mediaRecorderRef w' = mediaRecorderRef w
  ∧ elapsedTime w ≤ elapsedTime w'
  ∧ ∀ r m, recorders w !! r = Some m →
      ∃ m', recorders w' !! r = Some m' ∧ rec_stream m' = rec_stream m.

(** The artifact [recorder.onstop] builds when the final [dataavailable]
    event carried [data] and the fragments collected before it were
    [chunks]: an empty [data] is not collected. *)
Definition artifactOf (chunks : list Blob) (data : Blob) : Blob :=
  new_Blob (chunks ++ if blob_size data >? 0 then [data] else []) "video/webm".

(** The only error the component ever shows is the permission message,
    and only while it is [idle]. *)
Definition errorIsPermission (w : World) : Prop :=
  error w = None ∨ (error w = Some permissionError ∧ status w = idle).

(** The pending stopwatch intervals. *)
Definition stopwatchesPending (w : World) : list Timer :=
  List.filter (λ t, match t_cb t with
                    | cb_stopwatch => true
                    | cb_autoStop => false
                    end) (timers w).

(** What holds of every world the component can be in. *)
Definition wellFormed (w : World) : Prop :=
  videoSrcObject w = None
  ∧ errorIsPermission w
  ∧ tracksReleased w
  ∧ recorderOnStream w
  ∧ 0 ≤ elapsedTime w
  ∧ (∀ url, recordedVideoUrl w = Some url → is_Some (objectURLs w !! url)).

End RecorderView.

(** ** Data URLs, as [fileToBase64] reads them *)

Module DataUrl.

(** A string without a comma. *)
Fixpoint noComma (s : string) : bool :=
  match s with
  | EmptyString => true
  | String c r => negb (Ascii.eqb c ",") && noComma r
  end.

(** [pieces.join(',')]. *)
Definition joinComma (pieces : list string) : string :=
  String.concat "," pieces.

End DataUrl.

(** ** The analyzer widget driven by a sequence of events *)

Module AnalyzerEvents.

Import Gemini Analyzer.

(** [handleAnalyze] up to its [await] (lines 246-250), for a widget that
    holds a file. *)
Definition analyzeStarted (w : World) : World :=
  render (setCells (file w) loading EmptyString EmptyString w).

(** [handleAnalyze] from the moment the awaited call settles (lines
    253-259).  The state setters do not read the handler's closure, so the
    continuation acts on the state of the moment. *)
Definition analyzeSettled (outcome : JsResult string) (w : World) : World :=
  match outcome with
  | js_return analysisResult =>
      render (setCells (file w) success analysisResult (errorText w) w)
  | js_throw err =>
      let message :=
        match err with
        | js_Error m => m
        | js_other => "An unknown error occurred."
        end in
      render (setCells (file w) error (result w) message w)
  end.

(** What can reach the widget: the file input's change event (with the
    chosen file, if any), a click on Analyze, the answer to an earlier
    click, a click on Clear.  Answers may arrive late, after other
    events. *)
Inductive Event : Type :=
  | on_fileChange (selectedFile : option File)
  | on_analyze
  | on_answer (outcome : JsResult string)
  | on_clear.

Definition step (w : World) (e : Event) : World :=
  match e with
  | on_fileChange f => handleFileChange f w
  | on_analyze =>
      match file w with
      | Some _ => analyzeStarted w
      | None => w
      end
  | on_answer outcome => analyzeSettled outcome w
  | on_clear => handleClear w
  end.

Definition run (events : list Event) (w : World) : World :=
  fold_left step events w.

(** The locator the browser hands out for its [n]-th blob. *)
Definition locator (n : nat) : string := "blob:" +:+ pretty n.

(** Every live locator is one the browser has handed out. *)
Definition minted (w : World) : Prop :=
  ∀ url, is_Some (objectURLs w !! url) →
    ∃ n, (n < nextBlobId w)%nat ∧ url = locator n.

(** The memo cell taken alone: its locator resolves to the bytes of the
    file it was computed for. *)
Definition memoSound (w : World) : Prop :=
  match previewDep w with
  | Some g =>
      ∃ url, previewUrl w = Some url
        ∧ objectURLs w !! url = Some (file_blob g)
  | None => previewUrl w = None
  end.

(** The memo cell agrees with the state: it was computed for the selected
    file, its locator resolves to that file's bytes, and it holds nothing
    when no file is selected. *)
Definition previewConsistent (w : World) : Prop :=
  match file w with
  | Some f =>
      ∃ g url, previewDep w = Some g ∧ file_id g = file_id f
        ∧ previewUrl w = Some url
        ∧ objectURLs w !! url = Some (file_blob g)
  | None => previewDep w = None ∧ previewUrl w = None
  end.

(** The messages [analyzeImageWithGemini] can throw. *)
Definition clientMessage (m : string) : Prop :=
  m = invalidKeyMessage ∨ m = unexpectedMessage
  ∨ ∃ cause, m = apiErrorPrefix +:+ cause
       ∧ includes cause "API key not valid" = false.

End AnalyzerEvents.

(** * Properties

    ** JavaScript primitives *)

Module JsFacts.

Lemma Math_max_num (a b : Z) : Math_max (JNum a) (JNum b) = JNum (Z.max a b).
Proof. reflexivity. Qed.

Lemma Math_max_NaN (a : JsNumber) : Math_max a JNaN = JNaN.
Proof. by destruct a. Qed.

Lemma js_gt_NaN (b : JsNumber) : js_gt JNaN b = false.
Proof. reflexivity. Qed.

Lemma js_gt_true (a : JsNumber) :
  js_gt a (JNum 0) = true → ∃ z, a = JNum z ∧ 0 < z.
Proof.
  destruct a as [z|]; simpl; [|discriminate].
  intros H. exists z. split; [done|]. by apply Z.ltb_lt.
Qed.

Lemma parseInt_empty : parseInt EmptyString = JNaN.
Proof. reflexivity. Qed.

Lemma prefix_refl (s : string) : String.prefix s s = true.
Proof.
  induction s as [|c s IH]; simpl; [done|].
  destruct (ascii_dec c c); [done|congruence].
Qed.

Lemma includes_unfold (hay needle : string) :
  includes hay needle
  = String.prefix needle hay
    || match hay with
       | EmptyString => false
       | String _ r => includes r needle
       end.
Proof. by destruct hay. Qed.

Lemma includes_refl (s : string) : includes s s = true.
Proof. rewrite includes_unfold, prefix_refl. done. Qed.

(** A message stays visible behind any text put in front of it. *)
Lemma includes_app (p m : string) : includes (p +:+ m) m = true.
Proof.
  induction p as [|c p IH]; simpl.
  - apply includes_refl.
  - rewrite IH. apply orb_true_r.
Qed.

(** Numeric edits are clamped from below by 1. *)
Lemma clamp_num (value : string) (z : Z) :
  parseInt value = JNum z →
  Math_max (JNum 1) (parseInt value) = JNum (Z.max 1 z) ∧ 1 ≤ Z.max 1 z.
Proof. intros ->. split; [done|lia]. Qed.

Lemma clamp_nonpositive (value : string) (z : Z) :
  parseInt value = JNum z → z ≤ 0 →
  Math_max (JNum 1) (parseInt value) = JNum 1.
Proof. intros -> Hz. simpl. f_equal. lia. Qed.

Example parseInt_zero : parseInt "0" = JNum 0.
Proof. reflexivity. Qed.

Example parseInt_negative : parseInt "-3" = JNum (-3).
Proof. reflexivity. Qed.

Example parseInt_fraction : parseInt "1.5" = JNum 1.
Proof. reflexivity. Qed.

Example parseInt_leading_dot : parseInt ".5" = JNaN.
Proof. reflexivity. Qed.

End JsFacts.

(** ** The recording lifecycle controller *)

Module RecorderSpec.

Import Recorder.

Section Proofs.

Variable gathered : nat → Blob.

(** *** Timer delays *)


Lemma timerDelay_nonneg (delay : JsNumber) : 0 ≤ timerDelay delay.
Proof. destruct delay as [z|]; cbn; lia. Qed.


(** *** What the handlers leave alone *)

Lemma sameSession_refl w : sameSession w w.
Proof. by repeat split. Qed.

Lemma sameSession_trans w1 w2 w3 :
  sameSession w1 w2 → sameSession w2 w3 → sameSession w1 w3.
Proof. unfold sameSession. intuition congruence. Qed.

Lemma stop_sameSession w : sameSession w (handleStopRecording gathered w).
Proof.
  unfold handleStopRecording, recorder_stop.
  repeat case_match; cbn in *; try apply sameSession_refl;
    repeat case_match; by repeat split.
Qed.

Lemma fireTimer_sameSession t w : sameSession w (fireTimer gathered t w).
Proof.
  unfold fireTimer. case_match; [|apply sameSession_refl].
  destruct (t_cb t); cbn.
  - eapply sameSession_trans; [|apply stop_sameSession]. by repeat split.
  - by repeat split.
Qed.

Lemma fireAll_sameSession due w :
  sameSession w (fold_left (λ w t, fireTimer gathered t w) due w).
Proof.
  revert w. induction due as [|t due IH]; intros w; simpl.
  - apply sameSession_refl.
  - eapply sameSession_trans; [apply fireTimer_sameSession|apply IH].
Qed.

Lemma elapse_sameSession w : sameSession w (elapse gathered w).
Proof.
  unfold elapse.
  eapply sameSession_trans; [|apply fireAll_sameSession]. by repeat split.
Qed.

(** The answer to a waiting permission request, in explicit form. *)
Lemma settle_eq answer w c :
  status w = permission_pending → pendingRequest w = Some c →
  requestPermission_settle answer w
  = match answer with
    | granted n =>
        set_status ready
          (set_mediaStream (Some (size (streams w)))
             (set_streams
                (<[size (streams w) := replicate n live]> (streams w))
                (set_pendingRequest None w)))
    | rejected _ =>
        match video c with
        | video_facing _ =>
            set_pendingRequest (Some (mkConstraints video_any true))
              (log (call_getUserMedia (mkConstraints video_any true))
                 (set_pendingRequest None w))
        | video_any =>
            set_status idle
              (set_error (Some permissionError) (set_pendingRequest None w))
        end
    end.
Proof.
  intros Hst Hp. unfold requestPermission_settle, permissionGranted.
  rewrite Hp. destruct answer as [n|e]; [|reflexivity]. cbn.
  rewrite Hst. reflexivity.
Qed.

(** Three facts about every world the component can be in: a stored
    stream means the component is [ready] or [recording]; a stored locator
    is a non-empty string; a [finished] component holds a locator. *)
Lemma reachable_inv {typed : string → Prop} w :
  reachableWith gathered typed w →
  (is_Some (mediaStream w) → status w = ready ∨ status w = recording)
  ∧ (∀ u, recordedVideoUrl w = Some u → truthy u = true)
  ∧ (status w = finished → is_Some (recordedVideoUrl w)).
Proof.
  induction 1 as [|w Hr IH Hst|answer w Hr IH Hst|v w Hr IH Hst Hv
                  |w Hr IH Hst|w Hr IH Hst|w url Hr IH Hst Hu Ht
                  |r w Hr IH|w Hr IH|w Hr IH].
  - cbn. split_and!; [by intros []|done|done].
  - destruct IH as (I1 & I2 & I3). cbn. split_and!; [|done|done].
    intros Hs. apply I1 in Hs. rewrite Hst in Hs. by destruct Hs.
  - destruct IH as (I1 & I2 & I3). unfold requestPermission_settle.
    destruct (pendingRequest w) as [c|]; [|done].
    assert (Hnone : ¬ is_Some (mediaStream w)).
    { intros Hs. apply I1 in Hs. rewrite Hst in Hs. by destruct Hs. }
    destruct answer as [n|e]; [|destruct (video c)]; cbn;
      split_and!; try done; try (intros _; by left);
      try (intros Hs; by destruct (Hnone Hs)); rewrite Hst; done.
  - done.
  - destruct IH as (I1 & I2 & I3). unfold handleStartRecording.
    destruct (mediaStream w) eqn:Hs; [|split_and!; [rewrite Hs; by intros [? [=]]|done|done]]. cbn.
    destruct (js_gt _ _); cbn; split_and!; naive_solver.
  - destruct (stop_sameSession w) as (E1 & E2 & E3 & _).
    rewrite E1, E2, E3. done.
  - destruct IH as (I1 & I2 & I3). unfold handleNewRecording.
    rewrite Hu, Ht. cbn. split_and!; [|done|done].
    intros Hs. apply I1 in Hs. rewrite Hst in Hs. by destruct Hs.
  - unfold recorder_sourceEnded.
    destruct (recorders w !! r) as [m|]; [|done].
    by destruct (rec_state m).
  - destruct (elapse_sameSession w) as (E1 & E2 & E3 & _).
    rewrite E1, E2, E3. done.
  - destruct IH as (I1 & I2 & I3). unfold deliver.
    destruct (tasks w) as [|t rest]; [done|].
    destruct t as [r data|r]; cbn.
    + unfold recorder_ondataavailable. case_match; cbn; done.
    + destruct (recorders w !! r) as [m|]; [|done].
      unfold recorder_onstop, stopStopwatch. cbn.
      destruct (stopwatchRef w); cbn;
        (split_and!; [by intros [? [=]]|by intros u [= <-]|eauto]).
Qed.

(** *** Explicit forms of the handlers *)

Lemma handleStop_capturing w r s :
  mediaRecorderRef w = Some r →
  recorders w !! r = Some (mkRecorder s rs_recording) →
  handleStopRecording gathered w =
  let w1 :=
    set_tasks (tasks w ++ [ev_dataavailable r (gathered r); ev_stop r])
      (set_recorders (<[r := mkRecorder s rs_inactive]> (recorders w))
         (log (call_recorder_stop r) w)) in
  match timerRef w with
  | Some id => set_timerRef None (clearTimeout id w1)
  | None => w1
  end.
Proof.
  intros Hr Hm. unfold handleStopRecording. rewrite Hr, Hm. cbn.
  unfold recorder_stop. cbn. rewrite Hm. reflexivity.
Qed.

Lemma handleStart_eq w s :
  mediaStream w = Some s →
  handleStartRecording w =
  let r := size (recorders w) in
  let sw := nextTimerId w in
  let w1 :=
    set_stopwatchRef (Some sw)
      (set_nextTimerId (Pos.succ sw)
         (set_timers (timers w ++ [stopwatchTimer sw (now w + 1000)])
            (log (call_setInterval sw cb_stopwatch 1000)
               (set_elapsedTime 0
                  (set_recorders
                     (<[r := mkRecorder s rs_recording]> (recorders w))
                     (log (call_recorder_start r)
                        (set_mediaRecorderRef (Some r)
                           (log (call_new_MediaRecorder s)
                              (set_recordedChunksRef []
                                 (set_status recording w)))))))))) in
  if js_gt (duration w) (JNum 0) then
    let T := Pos.succ sw in
    let delay :=
      timerDelay (js_mul (js_mul (duration w) (JNum 60)) (JNum 1000)) in
    set_timerRef (Some T)
      (set_nextTimerId (Pos.succ T)
         (set_timers (timers w1 ++ [autoStopTimer T (now w + delay)])
            (log (call_setTimeout T cb_autoStop delay) w1)))
  else w1.
Proof.
  intros Hs. unfold handleStartRecording. rewrite Hs.
  unfold new_MediaRecorder, recorder_start, startStopwatch, setInterval,
    setTimeout.
  cbn -[js_gt js_mul timerDelay]. rewrite alter_insert_eq.
  cbn -[js_gt js_mul timerDelay].
  destruct (js_gt (duration w) (JNum 0)); reflexivity.
Qed.

Lemma stop_not_capturing w :
  capturing w = false → handleStopRecording gathered w = w.
Proof.
  unfold capturing, handleStopRecording.
  destruct (mediaRecorderRef w) as [r|]; [|done].
  destruct (recorders w !! r) as [[s []]|]; done.
Qed.

Lemma autoTimers_rearm sw p auto :
  match auto with Some (T, _) => T ≠ sw | None => True end →
  rearm sw p (autoTimers auto) = autoTimers auto.
Proof.
  destruct auto as [[T D]|]; [|done]. intros H. cbn.
  by destruct (Pos.eqb_spec T sw).
Qed.

Lemma rearm_cons id p t ts :
  rearm id p (t :: ts)
  = (if Pos.eqb (t_id t) id
     then mkTimer (t_id t) (t_due t + p) (t_period t) (t_cb t)
     else t) :: rearm id p ts.
Proof. reflexivity. Qed.

Lemma fireTimer_stopwatch w sw due auto :
  timers w = stopwatchTimer sw due :: autoTimers auto →
  match auto with Some (T, _) => T ≠ sw | None => True end →
  fireTimer gathered (stopwatchTimer sw due) w
  = set_elapsedTime (elapsedTime w + 1)
      (set_fired (fired w ++ [cb_stopwatch])
         (set_timers (stopwatchTimer sw (due + 1000) :: autoTimers auto) w)).
Proof.
  intros Ht Hne. unfold fireTimer, pending. rewrite Ht.
  cbn -[rearm autoTimers]. rewrite Pos.eqb_refl. cbn -[rearm autoTimers].
  rewrite rearm_cons. cbn -[rearm autoTimers].
  by rewrite Pos.eqb_refl, autoTimers_rearm.
Qed.

Lemma fireTimer_autoStop w sw due T D :
  timers w = [stopwatchTimer sw due; autoStopTimer T D] → T ≠ sw →
  fireTimer gathered (autoStopTimer T D) w
  = handleStopRecording gathered
      (set_fired (fired w ++ [cb_autoStop])
         (set_timers [stopwatchTimer sw due] w)).
Proof.
  intros Ht Hne. unfold fireTimer, pending. rewrite Ht. cbn.
  rewrite Pos.eqb_refl, orb_true_r. cbn.
  by destruct (Pos.eqb_spec sw T); [congruence|].
Qed.

(** [recorder.onstop] once the stopwatch is known. *)
Lemma onstop_eq w s sw :
  stopwatchRef w = Some sw →
  recorder_onstop s w
  = let url := "blob:" +:+ pretty (nextBlobId w) in
    set_mediaStream None
      (set_streams (alter (map (λ _, ended)) s (streams w))
         (log (call_track_stop s)
            (set_stopwatchRef None
               (set_timers (removeTimer sw (timers w))
                  (log (call_clearInterval sw)
                     (set_status finished
                        (set_recordedVideoUrl (Some url)
                           (set_nextBlobId (S (nextBlobId w))
                              (set_objectURLs
                                 (<[url := new_Blob (recordedChunksRef w)
                                             "video/webm"]> (objectURLs w))
                                 (log (call_createObjectURL url) w)))))))))).
Proof.
  intros Hsw. unfold recorder_onstop, createObjectURL, stopStopwatch.
  cbn. rewrite Hsw. reflexivity.
Qed.

Lemma runTasks_nil w : tasks w = [] → runTasks w = set_tasks [] w.
Proof. intros H. unfold runTasks. by rewrite H. Qed.

Lemma autoTimers_not_due auto t :
  match auto with Some (_, D) => t < D | None => True end →
  List.filter (λ u, t_due u <=? t) (autoTimers auto) = [].
Proof.
  destruct auto as [[T D]|]; [|done]. intros H. cbn.
  destruct (Z.leb_spec D t); [lia|done].
Qed.

(** One millisecond of capture during which the auto-stop is not due. *)
Lemma elapse_capturing w sw due auto :
  timers w = stopwatchTimer sw due :: autoTimers auto →
  match auto with Some (T, D) => T ≠ sw ∧ now w + 1 < D | None => True end →
  elapse gathered w
  = if due <=? now w + 1
    then set_elapsedTime (elapsedTime w + 1)
           (set_fired (fired w ++ [cb_stopwatch])
              (set_timers (stopwatchTimer sw (due + 1000) :: autoTimers auto)
                 (set_now (now w + 1) w)))
    else set_now (now w + 1) w.
Proof.
  intros Ht Ha. unfold elapse.
  change (timers (set_now (now w + 1) w)) with (timers w).
  change (now (set_now (now w + 1) w)) with (now w + 1).
  rewrite Ht. cbn -[autoTimers fireTimer].
  rewrite autoTimers_not_due by (destruct auto as [[??]|]; tauto).
  destruct (due <=? now w + 1); [|done]. cbn -[autoTimers fireTimer].
  rewrite (fireTimer_stopwatch _ sw due auto); [done|done|].
  destruct auto as [[??]|]; tauto.
Qed.

Lemma tick_capturing w r s sw auto :
  Capturing r s sw auto w →
  match auto with Some (_, D) => now w + 1 < D | None => True end →
  Capturing r s sw auto (tick gathered w)
  ∧ sameSession w (tick gathered w)
  ∧ stopCalls (tick gathered w) = stopCalls w
  ∧ autoStops (tick gathered w) = autoStops w
  ∧ now (tick gathered w) = now w + 1.
Proof.
  intros [Hst Hs Hr Hm Hq Hsw (due & Hdue & Ht) Ha] Hnd. unfold tick.
  rewrite (elapse_capturing w sw due auto Ht)
    by (destruct auto as [[??]|]; tauto).
  destruct (Z.leb_spec due (now w + 1)) as [Hle|Hgt];
    (rewrite runTasks_nil by exact Hq).
  - split_and!; try done.
    + constructor; try done.
      * exists (due + 1000). split; [cbn; lia|done].
      * destruct auto as [[??]|]; [|done]. cbn. split_and!; tauto || lia.
    + unfold autoStops. cbn. rewrite List.filter_app. cbn.
      by rewrite app_nil_r.
  - split_and!; try done.
    constructor; try done.
    + exists due. split; [cbn; lia|done].
    + destruct auto as [[??]|]; [|done]. cbn. split_and!; tauto || lia.
Qed.

(** Stopping an active recorder and delivering the two events it queues. *)
Lemma finalize w r s sw :
  mediaRecorderRef w = Some r →
  recorders w !! r = Some (mkRecorder s rs_recording) →
  tasks w = [] →
  stopwatchRef w = Some sw →
  removeTimer sw
    (match timerRef w with
     | Some id => removeTimer id (timers w)
     | None => timers w
     end) = [] →
  let w' := runTasks (handleStopRecording gathered w) in
  Finalized r s (streams w) (objectURLs w) w'
  ∧ stopCalls w' = S (stopCalls w)
  ∧ artifacts w' = S (artifacts w)
  ∧ autoStops w' = autoStops w
  ∧ duration w' = duration w
  ∧ now w' = now w.
Proof.
  intros Hr Hm Hq Hsw Hts w'. subst w'.
  rewrite (handleStop_capturing w r s Hr Hm). cbn zeta. rewrite Hq.
  set (w1 := set_tasks _ _).
  set (w2 := match timerRef w with Some id => _ | None => _ end).
  assert (Htasks : tasks w2 = [ev_dataavailable r (gathered r); ev_stop r]).
  { subst w2. by destruct (timerRef w). }
  unfold runTasks. rewrite Htasks. cbn [fold_left runTask].
  set (w3 := recorder_ondataavailable _ _).
  assert (H3 : recorders w3 = <[r := mkRecorder s rs_inactive]> (recorders w)
               ∧ stopwatchRef w3 = Some sw
               ∧ timers w3 = match timerRef w with
                             | Some id => removeTimer id (timers w)
                             | None => timers w
                             end
               ∧ streams w3 = streams w ∧ objectURLs w3 = objectURLs w
               ∧ mediaRecorderRef w3 = Some r ∧ fired w3 = fired w
               ∧ duration w3 = duration w ∧ now w3 = now w
               ∧ tasks w3 = []
               ∧ calls w3
                 = match timerRef w with
                   | Some id =>
                       calls w ++ [call_recorder_stop r] ++ [call_clearTimeout id]
                   | None => calls w ++ [call_recorder_stop r]
                   end).
  { subst w3 w2 w1. unfold recorder_ondataavailable.
    destruct (blob_size (gathered r) >? 0); destruct (timerRef w); cbn;
      rewrite <- ?app_assoc; split_and!; done. }
  destruct H3 as (E1 & E2 & E3 & E4 & E5 & E6 & E7 & E8 & E9 & E11 & E10).
  rewrite E1, lookup_insert_eq. cbn [rec_stream].
  rewrite (onstop_eq w3 s sw E2). cbn zeta.
  split_and!.
  - constructor; try done.
    + cbn. by rewrite E1, lookup_insert_eq.
    + split; [|done]. cbn -[removeTimer]. by rewrite E3.
    + cbn. by rewrite E4.
    + eexists _, _. cbn. split_and!; [done|done|by rewrite E5].
  - unfold stopCalls. cbn. rewrite E10.
    destruct (timerRef w); rewrite !List.filter_app, !length_app; cbn; lia.
  - unfold artifacts. cbn. rewrite E10.
    destruct (timerRef w); rewrite !List.filter_app, !length_app; cbn; lia.
  - unfold autoStops. cbn. by rewrite E7.
  - done.
  - done.
Qed.

(** The millisecond at which the auto-stop is due. *)
Lemma elapse_autostop w r s sw T D :
  Capturing r s sw (Some (T, D)) w → D ≤ now w + 1 →
  ∃ w1, elapse gathered w = handleStopRecording gathered w1
    ∧ mediaRecorderRef w1 = Some r
    ∧ recorders w1 !! r = Some (mkRecorder s rs_recording)
    ∧ tasks w1 = []
    ∧ stopwatchRef w1 = Some sw
    ∧ timerRef w1 = Some T
    ∧ (∃ due, timers w1 = [stopwatchTimer sw due])
    ∧ streams w1 = streams w ∧ objectURLs w1 = objectURLs w
    ∧ stopCalls w1 = stopCalls w
    ∧ autoStops w1 = S (autoStops w)
    ∧ duration w1 = duration w
    ∧ now w1 = now w + 1.
Proof.
  intros [Hst Hs Hr Hm Hq Hsw (due & Hdue & Ht) (Hne & Href & HD)] Hnow.
  unfold elapse.
  change (timers (set_now (now w + 1) w)) with (timers w).
  change (now (set_now (now w + 1) w)) with (now w + 1).
  rewrite Ht. cbn -[fireTimer].
  assert (HDle : (D <=? now w + 1) = true) by (by apply Z.leb_le).
  rewrite HDle.
  destruct (Z.leb_spec due (now w + 1)) as [Hle|Hgt]; cbn -[fireTimer].
  - rewrite (fireTimer_stopwatch _ sw due (Some (T, D))) by done.
    rewrite (fireTimer_autoStop _ sw (due + 1000) T D) by done.
    eexists. split; [reflexivity|].
    split_and!; try done; try (by eexists); try (cbn; lia).
    unfold autoStops. cbn. rewrite !List.filter_app, !length_app. cbn. lia.
  - rewrite (fireTimer_autoStop _ sw due T D) by done.
    eexists. split; [reflexivity|].
    split_and!; try done; try (by eexists); try (cbn; lia).
    unfold autoStops. cbn. rewrite !List.filter_app, !length_app. cbn. lia.
Qed.

Lemma removeTimer_stopwatch sw T due :
  T ≠ sw → removeTimer sw (removeTimer T [stopwatchTimer sw due]) = [].
Proof.
  intros H. cbn. destruct (Pos.eqb_spec sw T); [congruence|]. cbn.
  by rewrite Pos.eqb_refl.
Qed.

Lemma tick_autostop w r s sw T D :
  Capturing r s sw (Some (T, D)) w → D ≤ now w + 1 →
  Finalized r s (streams w) (objectURLs w) (tick gathered w)
  ∧ stopCalls (tick gathered w) = S (stopCalls w)
  ∧ autoStops (tick gathered w) = S (autoStops w)
  ∧ duration (tick gathered w) = duration w
  ∧ now (tick gathered w) = now w + 1.
Proof.
  intros Hc Hnow. unfold tick.
  destruct (elapse_autostop w r s sw T D Hc Hnow)
    as (w1 & -> & Hr & Hm & Hq & Hsw & Href & (due & Ht) & E1 & E2 & E3 & E4
        & E5 & E6).
  destruct Hc as [_ _ _ _ _ _ _ (Hne & _)].
  destruct (finalize w1 r s sw Hr Hm Hq Hsw) as (F & F1 & _ & F2 & F3 & F4).
  { rewrite Href, Ht. by apply removeTimer_stopwatch. }
  rewrite E1, E2 in F. split_and!; [done|congruence..].
Qed.

(** After the finalize event nothing is left to happen. *)
Lemma tick_quiescent w :
  quiescent w → tick gathered w = set_tasks [] (set_now (now w + 1) w).
Proof.
  intros [Ht Hq]. unfold tick, elapse.
  change (timers (set_now (now w + 1) w)) with (timers w). rewrite Ht.
  cbn [List.filter fold_left]. by rewrite runTasks_nil.
Qed.

Lemma tick_finalized w r s st0 u0 :
  Finalized r s st0 u0 w →
  Finalized r s st0 u0 (tick gathered w)
  ∧ stopCalls (tick gathered w) = stopCalls w
  ∧ autoStops (tick gathered w) = autoStops w
  ∧ duration (tick gathered w) = duration w.
Proof.
  intros [F1 F2 F3 F4 F5 F6 F7]. rewrite (tick_quiescent w F5).
  split_and!; try done. destruct F5. by constructor.
Qed.

Lemma advance_finalized n w r s st0 u0 :
  Finalized r s st0 u0 w →
  Finalized r s st0 u0 (advance gathered n w)
  ∧ stopCalls (advance gathered n w) = stopCalls w
  ∧ autoStops (advance gathered n w) = autoStops w
  ∧ duration (advance gathered n w) = duration w.
Proof.
  revert w. induction n as [|n IH]; intros w F; [done|]. cbn [advance].
  destruct (tick_finalized w r s st0 u0 F) as (F' & E1 & E2 & E3).
  destruct (IH _ F') as (F'' & E1' & E2' & E3').
  split_and!; [done|congruence..].
Qed.

(** Capture goes on for as long as the auto-stop is not due. *)
Lemma advance_capturing n w r s sw auto :
  Capturing r s sw auto w →
  match auto with Some (_, D) => now w + Z.of_nat n < D | None => True end →
  Capturing r s sw auto (advance gathered n w)
  ∧ sameSession w (advance gathered n w)
  ∧ stopCalls (advance gathered n w) = stopCalls w
  ∧ autoStops (advance gathered n w) = autoStops w
  ∧ now (advance gathered n w) = now w + Z.of_nat n.
Proof.
  revert w. induction n as [|n IH]; intros w Hc Hd.
  - cbn. split_and!; [done|apply sameSession_refl|done|done|lia].
  - cbn [advance].
    destruct (tick_capturing w r s sw auto Hc) as (Hc' & S1 & E1 & E2 & E3).
    { destruct auto as [[??]|]; [lia|done]. }
    destruct (IH _ Hc') as (Hc'' & S2 & E1' & E2' & E3').
    { destruct auto as [[??]|]; [lia|done]. }
    split_and!; [done|by eapply sameSession_trans|congruence|congruence|lia].
Qed.

(** Once the auto-stop is due and a millisecond has passed it has fired,
    exactly once. *)
Lemma advance_autostop n w r s sw T D :
  Capturing r s sw (Some (T, D)) w → D ≤ now w + Z.of_nat n → (0 < n)%nat →
  Finalized r s (streams w) (objectURLs w) (advance gathered n w)
  ∧ stopCalls (advance gathered n w) = S (stopCalls w)
  ∧ autoStops (advance gathered n w) = S (autoStops w)
  ∧ duration (advance gathered n w) = duration w.
Proof.
  revert w. induction n as [|n IH]; intros w Hc Hd Hn; [lia|].
  cbn [advance].
  destruct (Z.le_gt_cases D (now w + 1)) as [Hle|Hgt].
  - destruct (tick_autostop w r s sw T D Hc Hle) as (F & E1 & E2 & E3 & _).
    destruct (advance_finalized n _ _ _ _ _ F) as (F' & E1' & E2' & E3').
    split_and!; [done|congruence..].
  - destruct (tick_capturing w r s sw (Some (T, D)) Hc) as (Hc' & S1 & E1 & E2 & E3).
    { lia. }
    destruct (IH _ Hc') as (F & E1' & E2' & E3'); [lia|lia|].
    destruct S1 as (_ & _ & _ & _ & Sd & Ss & Su & _).
    rewrite Ss, Su in F. split_and!; [done|congruence..].
Qed.


Lemma Finalized_not_capturing w r s st0 u0 :
  Finalized r s st0 u0 w → capturing w = false.
Proof. intros [_ _ Hr Hm _ _ _]. unfold capturing. by rewrite Hr, Hm. Qed.

(** StartRecording with a live stream and nothing scheduled begins a
    capture; the auto-stop is armed exactly for a positive duration. *)
Lemma start_Capturing w s :
  mediaStream w = Some s → quiescent w →
  let w' := handleStartRecording w in
  let sw := nextTimerId w in
  let auto :=
    if js_gt (duration w) (JNum 0)
    then Some (Pos.succ sw,
               now w + timerDelay (js_mul (js_mul (duration w) (JNum 60))
                                     (JNum 1000)))
    else None in
  Capturing (size (recorders w)) s sw auto w'
  ∧ timers w' = stopwatchTimer sw (now w + 1000) :: autoTimers auto
  ∧ timerRef w' = match auto with Some (T, _) => Some T | None => timerRef w end
  ∧ timeoutCalls w' = match auto with
                      | Some _ => S (timeoutCalls w)
                      | None => timeoutCalls w
                      end
  ∧ streams w' = streams w ∧ objectURLs w' = objectURLs w
  ∧ stopCalls w' = stopCalls w ∧ autoStops w' = autoStops w
  ∧ now w' = now w.
Proof.
  intros Hs [Ht Hq] w' sw auto. subst w'.
  rewrite (handleStart_eq w s Hs). cbn zeta. fold sw.
  pose proof (timerDelay_nonneg
                (js_mul (js_mul (duration w) (JNum 60)) (JNum 1000))) as Hd.
  revert Hd auto.
  generalize (timerDelay (js_mul (js_mul (duration w) (JNum 60)) (JNum 1000))).
  intros delay Hd auto.
  destruct (js_gt (duration w) (JNum 0)); subst auto.
  - split_and!; try done.
    + constructor; try done.
      * cbn. apply lookup_insert_eq.
      * exists (now w + 1000). cbn. rewrite Ht. split; [lia|done].
      * cbn. split_and!; [|done|lia].
        intros E. by apply (Pos.succ_discr sw).
    + cbn. by rewrite Ht.
    + unfold timeoutCalls. cbn. rewrite !List.filter_app, !length_app. cbn. lia.
    + unfold stopCalls. cbn. rewrite !List.filter_app, !length_app. cbn. lia.
  - split_and!; try done.
    + constructor; try done.
      * cbn. apply lookup_insert_eq.
      * exists (now w + 1000). cbn. rewrite Ht. split; [lia|done].
    + cbn. by rewrite Ht.
    + unfold timeoutCalls. cbn. rewrite !List.filter_app, !length_app. cbn. lia.
    + unfold stopCalls. cbn. rewrite !List.filter_app, !length_app. cbn. lia.
Qed.


(** A capture, however long it is left running, is finalized once
    StopRecording has been called and the queued events delivered. *)
Lemma capture_then_stop ms w r s sw auto :
  Capturing r s sw auto w →
  Finalized r s (streams w) (objectURLs w)
    (runTasks (handleStopRecording gathered (advance gathered ms w))).
Proof.
  intros Hc.
  assert (Hcase :
    (Capturing r s sw auto (advance gathered ms w)
     ∧ sameSession w (advance gathered ms w))
    ∨ Finalized r s (streams w) (objectURLs w) (advance gathered ms w)).
  { destruct auto as [[T D]|].
    - destruct (Z.lt_ge_cases (now w + Z.of_nat ms) D) as [Hlt|Hge].
      + left. destruct (advance_capturing ms w _ _ _ _ Hc) as (? & ? & _); done.
      + destruct ms as [|ms].
        * left. split; [done|apply sameSession_refl].
        * right.
          destruct (advance_autostop (S ms) w _ _ _ _ _ Hc Hge) as (? & _);
            [lia|done].
    - left. destruct (advance_capturing ms w _ _ _ _ Hc) as (? & ? & _); done. }
  destruct Hcase as [[Hc' Hs]|F].
  - destruct Hc' as [_ _ Hr Hm Hq Hsw (due & _ & Ht) Ha].
    destruct (finalize _ r s sw Hr Hm Hq Hsw) as (F & _).
    { rewrite Ht. destruct auto as [[T D]|].
      - destruct Ha as (Hne & -> & _). cbn [autoTimers].
        cbn. rewrite Pos.eqb_refl. cbn.
        destruct (Pos.eqb_spec sw T); [congruence|]. cbn.
        by rewrite Pos.eqb_refl.
      - cbn [autoTimers]. destruct (timerRef _) as [id|]; cbn.
        + destruct (Pos.eqb_spec sw id); cbn; [done|by rewrite Pos.eqb_refl].
        + by rewrite Pos.eqb_refl. }
    destruct Hs as (_ & _ & _ & _ & _ & -> & -> & _) in F. exact F.
  - rewrite (stop_not_capturing _ (Finalized_not_capturing _ _ _ _ _ F)).
    destruct F as [F1 F2 F3 F4 F5 F6 F7].
    rewrite (runTasks_nil _ (proj2 F5)). destruct F5. by constructor.
Qed.

Lemma requestPermission_granted gum n w :
  permitted gum n →
  let w' := handleRequestPermission gum w in
  status w' = ready
  ∧ mediaStream w' = Some (size (streams w))
  ∧ streams w' = <[size (streams w) := replicate n live]> (streams w)
  ∧ objectURLs w' = objectURLs w
  ∧ timers w' = timers w ∧ tasks w' = tasks w.
Proof.
  intros Hp w'. subst w'.
  unfold handleRequestPermission, getUserMedia, permissionGranted. cbn.
  destruct Hp as [->|[[e ->] ->]]; by cbn.
Qed.

Lemma durationEdits_frame edits w :
  let w' := fold_left (λ w v, duration_onChange v w) edits w in
  status w' = status w ∧ mediaStream w' = mediaStream w
  ∧ streams w' = streams w ∧ objectURLs w' = objectURLs w
  ∧ timers w' = timers w ∧ tasks w' = tasks w.
Proof.
  revert w. induction edits as [|v edits IH]; intros w; [done|].
  cbn [fold_left]. destruct (IH (duration_onChange v w)) as (?&?&?&?&?&?).
  split_and!; etrans; try eassumption; done.
Qed.

Lemma newRecording_finalized w r s st0 u0 :
  Finalized r s st0 u0 w →
  let w' := handleNewRecording w in
  status w' = idle ∧ mediaStream w' = None ∧ recordedVideoUrl w' = None
  ∧ streams w' = alter (map (λ _, ended)) s st0
  ∧ quiescent w'
  ∧ ∃ url, recordedVideoUrl w = Some url
           ∧ is_Some (objectURLs w !! url)
           ∧ objectURLs w' = delete url u0
           ∧ objectURLs w' !! url = None.
Proof.
  intros [F1 F2 F3 F4 [F5 F5'] F6 (url & blob & Hu & Ht & Ho)] w'. subst w'.
  unfold handleNewRecording. rewrite Hu, Ht. unfold revokeObjectURL. cbn.
  split_and!; try done. exists url. rewrite Ho.
  split_and!; [done| |apply delete_insert_eq|apply lookup_delete_eq].
  rewrite lookup_insert_eq. by eexists.
Qed.

(** C1. Whatever the browser grants (at the first request or at the
    fallback), whatever is typed into the duration input and however long
    the recording runs before StopRecording, the sequence
    RequestPermission, StartRecording, StopRecording, finalize produces an
    artifact with a live locator, and after NewSession the component holds
    no stream, every track of the stream it acquired is ended, the stored
    locator is null, and the artifact's locator is revoked: no locator is
    live that was not live before the session. *)
Theorem C1_session_no_leak (gum : MediaStreamConstraints → GumResult)
    (n : nat) (edits : list string) (ms : nat) (w0 : World) :
  quiescent w0 → permitted gum n →
  let wF := recordingSession gathered gum edits ms w0 in
  let w := session gathered gum edits ms w0 in
  status w = idle
  ∧ mediaStream w = None
  ∧ streams w !! size (streams w0) = Some (replicate n ended)
  ∧ recordedVideoUrl w = None
  ∧ quiescent w
  ∧ ∃ url, recordedVideoUrl wF = Some url
           ∧ is_Some (objectURLs wF !! url)
           ∧ objectURLs w !! url = None
           ∧ objectURLs w = delete url (objectURLs w0).
Proof.
  intros [Ht0 Hq0] Hp wF w. subst w wF. unfold session, recordingSession.
  destruct (requestPermission_granted gum n w0 Hp)
    as (P1 & P2 & P3 & P4 & P5 & P6).
  set (w1 := handleRequestPermission gum w0) in *.
  destruct (durationEdits_frame edits w1) as (D1 & D2 & D3 & D4 & D5 & D6).
  set (w2 := fold_left _ edits w1) in *.
  destruct (start_Capturing w2 (size (streams w0)))
    as (Hc & _ & _ & _ & S1 & S2 & _).
  { congruence. }
  { split; congruence. }
  set (w3 := handleStartRecording w2) in *.
  pose proof (capture_then_stop ms w3 _ _ _ _ Hc) as F.
  destruct (newRecording_finalized _ _ _ _ _ F)
    as (N1 & N2 & N3 & N4 & N5 & url & N6 & N7 & N8 & N9).
  split_and!; try done.
  - rewrite N4, S1, D3, P3, lookup_alter_eq, lookup_insert_eq. cbn.
    f_equal. clear. induction n as [|k IH]; [done|]. cbn. by rewrite IH.
  - exists url. split_and!; [done|done|done|]. rewrite N8. congruence.
Qed.

(** *** The timers, the queue and the recorders *)

Lemma ids_filter (p : Timer → bool) ts id :
  id ∈ map t_id (List.filter p ts) → id ∈ map t_id ts.
Proof.
  rewrite !list_elem_of_In. intros H.
  apply in_map_iff in H as (t & <- & Ht).
  apply filter_In in Ht as [Ht _]. by apply in_map.
Qed.

Lemma NoDup_ids_filter (p : Timer → bool) ts :
  NoDup (map t_id ts) → NoDup (map t_id (List.filter p ts)).
Proof.
  induction ts as [|t ts IH]; [done|]. cbn. intros H.
  apply NoDup_cons in H as [Hin Hnd].
  destruct (p t); [|by apply IH]. cbn. apply NoDup_cons.
  split; [|by apply IH]. intros H. apply Hin. by eapply ids_filter.
Qed.

Lemma ids_rearm id p ts : map t_id (rearm id p ts) = map t_id ts.
Proof.
  induction ts as [|t ts IH]; [done|]. rewrite rearm_cons. cbn.
  rewrite IH. by destruct (Pos.eqb (t_id t) id).
Qed.

Lemma Forall_list_filter {A} (P : A → Prop) (p : A → bool) l :
  Forall P l → Forall P (List.filter p l).
Proof.
  induction 1 as [|x l Hx Hl IH]; cbn; [constructor|].
  destruct (p x); [by constructor|done].
Qed.

Lemma Forall_rearm (P : Timer → Prop) id p ts :
  (∀ t, P t → P (mkTimer (t_id t) (t_due t + p) (t_period t) (t_cb t))) →
  Forall P ts → Forall P (rearm id p ts).
Proof.
  intros HP. induction 1 as [|t ts Ht Hts IH]; [constructor|].
  rewrite rearm_cons. constructor; [|done].
  destruct (Pos.eqb (t_id t) id); [by apply HP|done].
Qed.

(** A step that touches the timers only in this way, and neither the
    status nor the recorders nor the queue, keeps the world orderly. *)
Lemma Orderly_frame w w' :
  Orderly w →
  status w' = status w → stopwatchRef w' = stopwatchRef w →
  nextTimerId w' = nextTimerId w → tasks w' = tasks w →
  recorders w' = recorders w → mediaRecorderRef w' = mediaRecorderRef w →
  pendingRequest w' = pendingRequest w →
  timersStep (timers w) (timers w') →
  Orderly w'.
Proof.
  intros [O1 O2 O3 O4 O5 O6] E1 E2 E3 E4 E5 E6 E7 Hts.
  constructor.
  - destruct Hts as [|id|id p]; [done|by apply NoDup_ids_filter|].
    by rewrite ids_rearm.
  - rewrite E3.
    destruct Hts as [|id|id p];
      [done|by apply Forall_list_filter|by apply Forall_rearm].
  - rewrite E1, E2.
    destruct Hts as [|id|id p];
      [done|by apply Forall_list_filter|by apply Forall_rearm].
  - by rewrite E4, E1, E6, E5.
  - intros r m. rewrite E5, E1, E6, E4. apply O5.
  - by rewrite E1, E7.
Qed.

(** Out of a recording nothing is queued, no stopwatch is pending and no
    recorder records. *)
Lemma Orderly_not_recording w :
  Orderly w → status w ≠ recording →
  tasks w = []
  ∧ Forall (λ t, t_cb t = cb_autoStop ∧ t_period t = None) (timers w)
  ∧ ∀ r m, recorders w !! r = Some m → rec_state m = rs_inactive.
Proof.
  intros [O1 O2 O3 O4 O5 O6] Hst. split_and!.
  - destruct O4 as [?|[? _]]; done.
  - eapply Forall_impl; [exact O3|]. intros t Ht. cbn in Ht.
    destruct (t_cb t); [done|]. by destruct Ht as (_ & ? & _).
  - intros r m Hm. destruct (O5 r m Hm) as [?|(_ & ? & _)]; done.
Qed.

(** A step between recordings that leaves the timers, the queue and the
    recorders alone. *)
Lemma Orderly_rest w w' :
  Orderly w → status w ≠ recording → status w' ≠ recording →
  timers w' = timers w → nextTimerId w' = nextTimerId w →
  tasks w' = tasks w → recorders w' = recorders w →
  (status w' ≠ permission_pending → pendingRequest w' = None) →
  Orderly w'.
Proof.
  intros O Hst Hst' E1 E2 E3 E4 Hp.
  destruct (Orderly_not_recording w O Hst) as (Hq & Hk & Hr).
  destruct O as [O1 O2 O3 O4 O5 O6]. constructor.
  - by rewrite E1.
  - by rewrite E1, E2.
  - rewrite E1. eapply Forall_impl; [exact Hk|].
    intros t [-> ->]. done.
  - left. by rewrite E3.
  - intros r m. rewrite E4. intros Hm. left. by eapply Hr.
  - done.
Qed.

Lemma Orderly_init : Orderly init.
Proof.
  constructor; cbn.
  - constructor.
  - constructor.
  - constructor.
  - by left.
  - intros r m H. by rewrite lookup_empty in H.
  - done.
Qed.

Lemma fresh_not_in nxt ts id :
  Forall (λ t, (t_id t < nxt)%positive) ts → (nxt ≤ id)%positive →
  id ∉ map t_id ts.
Proof.
  intros Hf Hle Hin. apply list_elem_of_In, in_map_iff in Hin as (t & <- & Ht).
  rewrite Forall_forall in Hf. specialize (Hf t).
  assert (t_id t < nxt)%positive by (apply Hf; by apply list_elem_of_In).
  lia.
Qed.

Lemma Orderly_start w :
  Orderly w → status w = ready → Orderly (handleStartRecording w).
Proof.
  intros O Hst.
  destruct (mediaStream w) as [s|] eqn:Hs;
    [|unfold handleStartRecording; by rewrite Hs].
  assert (Hnr : status w ≠ recording) by congruence.
  destruct (Orderly_not_recording w O Hnr) as (Hq & Hk & Hr).
  destruct O as [O1 O2 O3 O4 O5 O6].
  assert (Hp : pendingRequest w = None) by (apply O6; congruence).
  rewrite (handleStart_eq w s Hs). cbn zeta.
  set (sw := nextTimerId w). set (T := Pos.succ sw).
  generalize (timerDelay (js_mul (js_mul (duration w) (JNum 60)) (JNum 1000))).
  intros delay.
  assert (Hold : Forall (λ t, match t_cb t with
                              | cb_stopwatch =>
                                  t_period t = Some 1000
                                  ∧ recording = recording
                                  ∧ Some sw = Some (t_id t)
                              | cb_autoStop => t_period t = None
                              end) (timers w)).
  { eapply Forall_impl; [exact Hk|]. by intros t [-> ->]. }
  assert (Hsw : sw ∉ map t_id (timers w)).
  { apply (fresh_not_in (nextTimerId w)); [done|]. subst sw. lia. }
  assert (HT : T ∉ map t_id (timers w)).
  { apply (fresh_not_in (nextTimerId w)); [done|]. subst T sw. lia. }
  assert (Hrec : ∀ r m,
            <[size (recorders w) := mkRecorder s rs_recording]> (recorders w)
              !! r = Some m →
            rec_state m = rs_inactive
            ∨ (rec_state m = rs_recording ∧ recording = recording
               ∧ Some (size (recorders w)) = Some r ∧ tasks w = [])).
  { intros r m Hm. destruct (decide (size (recorders w) = r)) as [<-|Hne].
    - rewrite lookup_insert_eq in Hm. injection Hm as <-. by right.
    - rewrite lookup_insert_ne in Hm by done. left. by eapply Hr. }
  destruct (js_gt (duration w) (JNum 0)); constructor; cbn; try done.
  - rewrite !map_app. cbn. fold sw T.
    apply NoDup_app. split_and!.
    + apply NoDup_app. split_and!; [done| |apply NoDup_singleton].
      intros id Hin ->%list_elem_of_singleton. by apply Hsw.
    + intros id Hin ->%list_elem_of_singleton.
      apply elem_of_app in Hin as [Hin|Hin]; [by apply HT|].
      apply list_elem_of_singleton in Hin. subst T. lia.
    + apply NoDup_singleton.
  - rewrite !Forall_app. split_and!.
    + eapply Forall_impl; [exact O2|]. intros t Ht. cbn in Ht. fold sw T. lia.
    + constructor; [|constructor]. cbn. fold sw T. lia.
    + constructor; [|constructor]. cbn. fold sw T. lia.
  - rewrite !Forall_app. split_and!; [done| |].
    + constructor; [|constructor]. by cbn.
    + constructor; [|constructor]. by cbn.
  - by left.
  - rewrite !map_app. cbn. fold sw.
    apply NoDup_app. split_and!; [done| |apply NoDup_singleton].
    intros id Hin ->%list_elem_of_singleton. by apply Hsw.
  - rewrite !Forall_app. split.
    + eapply Forall_impl; [exact O2|]. intros t Ht. cbn in Ht. fold sw. lia.
    + constructor; [|constructor]. cbn. fold sw. lia.
  - rewrite !Forall_app. split; [done|].
    constructor; [|constructor]. by cbn.
  - by left.
Qed.

Lemma Orderly_stop w : Orderly w → Orderly (handleStopRecording gathered w).
Proof.
  intros O. destruct (capturing w) eqn:Hc;
    [|by rewrite (stop_not_capturing w Hc)].
  unfold capturing in Hc.
  destruct (mediaRecorderRef w) as [r|] eqn:Hr; [|done].
  destruct (recorders w !! r) as [[s st]|] eqn:Hm; [|done].
  destruct st; try done.
  rewrite (handleStop_capturing w r s Hr Hm). cbn zeta.
  destruct O as [O1 O2 O3 O4 O5 O6].
  destruct (O5 r _ Hm) as [?|(_ & Hst & _ & Hq)]; [done|].
  rewrite Hq.
  assert (Hrec : ∀ r' m,
            <[r := mkRecorder s rs_inactive]> (recorders w) !! r' = Some m →
            rec_state m = rs_inactive
            ∨ (rec_state m = rs_recording ∧ status w = recording
               ∧ mediaRecorderRef w = Some r'
               ∧ [ev_dataavailable r (gathered r); ev_stop r] = [])).
  { intros r' m Hm'. left. destruct (decide (r = r')) as [<-|Hne].
    - rewrite lookup_insert_eq in Hm'. by injection Hm' as <-.
    - rewrite lookup_insert_ne in Hm' by done.
      destruct (O5 r' m Hm') as [?|(_ & _ & Hr' & _)]; [done|congruence]. }
  assert (Htasks :
    status w = recording
    ∧ ∃ r0 m, mediaRecorderRef w = Some r0
        ∧ <[r := mkRecorder s rs_inactive]> (recorders w) !! r0 = Some m
        ∧ rec_state m = rs_inactive
        ∧ ([ev_dataavailable r (gathered r); ev_stop r] = [ev_stop r0]
           ∨ ∃ data, [ev_dataavailable r (gathered r); ev_stop r]
                     = [ev_dataavailable r0 data; ev_stop r0])).
  { split; [done|]. exists r, (mkRecorder s rs_inactive).
    split_and!; [done|apply lookup_insert_eq|done|]. right. by eexists. }
  destruct (timerRef w) as [id|]; constructor; cbn -[removeTimer];
    try done; try (by right).
  - by apply NoDup_ids_filter.
  - by apply Forall_list_filter.
  - by apply Forall_list_filter.
Qed.

Lemma Orderly_sourceEnded r w :
  Orderly w → Orderly (recorder_sourceEnded gathered r w).
Proof.
  intros O. unfold recorder_sourceEnded.
  destruct (recorders w !! r) as [[s st]|] eqn:Hm; [|done].
  destruct O as [O1 O2 O3 O4 O5 O6].
  destruct (O5 r _ Hm) as [Hi|(Hrec & Hst & Hr & Hq)].
  { cbn in Hi. subst st. by constructor. }
  cbn in Hrec. subst st. cbn. rewrite Hq.
  constructor; cbn; try done.
  - right. split; [done|]. exists r, (mkRecorder s rs_inactive).
    split_and!; [done|apply lookup_insert_eq|done|]. right. by eexists.
  - intros r' m Hm'. left. destruct (decide (r = r')) as [<-|Hne].
    + rewrite lookup_insert_eq in Hm'. by injection Hm' as <-.
    + rewrite lookup_insert_ne in Hm' by done.
      destruct (O5 r' m Hm') as [?|(_ & _ & Hr' & _)]; [done|congruence].
Qed.

Lemma Orderly_fireTimer t w : Orderly w → Orderly (fireTimer gathered t w).
Proof.
  intros O. unfold fireTimer. destruct (pending (t_id t) w); [|done].
  cbn zeta.
  set (ts := match t_period t with
             | Some p => rearm (t_id t) p (timers w)
             | None => removeTimer (t_id t) (timers w)
             end).
  assert (O1 : Orderly (set_fired (fired w ++ [t_cb t]) (set_timers ts w))).
  { apply (Orderly_frame w); try done. cbn. subst ts.
    destruct (t_period t); constructor. }
  destruct (t_cb t); cbn [runCallback].
  - by apply Orderly_stop.
  - eapply Orderly_frame; [exact O1|done..|constructor].
Qed.

Lemma Orderly_fireAll due w :
  Orderly w → Orderly (fold_left (λ w t, fireTimer gathered t w) due w).
Proof.
  revert w. induction due as [|t due IH]; intros w O; [done|].
  cbn [fold_left]. apply IH. by apply Orderly_fireTimer.
Qed.

Lemma Orderly_elapse w : Orderly w → Orderly (elapse gathered w).
Proof.
  intros O. unfold elapse. apply Orderly_fireAll.
  apply (Orderly_frame w); try done. constructor.
Qed.

(** What [recorder.onstop] does to the timers, the queue and the
    recorders. *)
Lemma onstop_timers s w :
  let w' := recorder_onstop s w in
  status w' = finished ∧ stopwatchRef w' = None
  ∧ timers w' = match stopwatchRef w with
                | Some sw => removeTimer sw (timers w)
                | None => timers w
                end
  ∧ nextTimerId w' = nextTimerId w ∧ tasks w' = tasks w
  ∧ recorders w' = recorders w ∧ pendingRequest w' = pendingRequest w.
Proof.
  unfold recorder_onstop, createObjectURL, stopStopwatch. cbn.
  destruct (stopwatchRef w) eqn:Hsw; cbn; by split_and!.
Qed.

Lemma Orderly_deliver w : Orderly w → Orderly (deliver w).
Proof.
  intros O. pose proof O as [O1 O2 O3 O4 O5 O6]. unfold deliver.
  destruct O4 as [Hq|(Hst & r & m & Hr & Hm & Hi & [Hq|[data Hq]])];
    rewrite Hq; [done| |]; cbn [runTask].
  - change (recorders (set_tasks [] w)) with (recorders w). rewrite Hm.
    set (w0 := set_tasks [] w).
    destruct (onstop_timers (rec_stream m) w0)
      as (E1 & E2 & E3 & E4 & E5 & E6 & E7).
    change (stopwatchRef w0) with (stopwatchRef w) in E3.
    change (timers w0) with (timers w) in E3.
    change (nextTimerId w0) with (nextTimerId w) in E4.
    change (tasks w0) with (@nil Task) in E5.
    change (recorders w0) with (recorders w) in E6.
    change (pendingRequest w0) with (pendingRequest w) in E7.
    assert (Hp : pendingRequest w = None) by (apply O6; congruence).
    assert (Hts : timersStep (timers w)
                    (timers (recorder_onstop (rec_stream m) w0))).
    { rewrite E3. destruct (stopwatchRef w); constructor. }
    constructor.
    + destruct Hts as [|id|id p]; [done|by apply NoDup_ids_filter|].
      by rewrite ids_rearm.
    + rewrite E4. destruct Hts as [|id|id p];
        [done|by apply Forall_list_filter|by apply Forall_rearm].
    + rewrite E3, E1, E2. apply Forall_forall. intros t Ht.
      rewrite Forall_forall in O3.
      destruct (stopwatchRef w) as [sw|] eqn:Hsw.
      * apply list_elem_of_In, filter_In in Ht as [Ht Hne].
        apply list_elem_of_In in Ht.
        specialize (O3 t Ht). cbn in O3.
        destruct (t_cb t); [done|]. destruct O3 as (_ & _ & [= ->]).
        by rewrite Pos.eqb_refl in Hne.
      * specialize (O3 t Ht). cbn in O3.
        destruct (t_cb t); [done|]. by destruct O3 as (_ & _ & ?).
    + left. by rewrite E5.
    + intros r' m'. rewrite E6. intros Hm'. left.
      destruct (O5 r' m' Hm') as [?|(_ & _ & _ & Hq')]; [done|].
      by rewrite Hq in Hq'.
    + intros _. by rewrite E7.
  - unfold recorder_ondataavailable.
    assert (Ht : status w = recording
                 ∧ ∃ r0 m0, mediaRecorderRef w = Some r0
                     ∧ recorders w !! r0 = Some m0
                     ∧ rec_state m0 = rs_inactive
                     ∧ ([ev_stop r] = [ev_stop r0]
                        ∨ ∃ data0, [ev_stop r]
                                   = [ev_dataavailable r0 data0; ev_stop r0])).
    { split; [done|]. exists r, m. split_and!; [done..|by left]. }
    assert (Hrec : ∀ r' m', recorders w !! r' = Some m' →
              rec_state m' = rs_inactive
              ∨ (rec_state m' = rs_recording ∧ status w = recording
                 ∧ mediaRecorderRef w = Some r' ∧ [ev_stop r] = [])).
    { intros r' m' Hm'. left.
      destruct (O5 r' m' Hm') as [?|(_ & _ & _ & Hq')]; [done|].
      by rewrite Hq in Hq'. }
    destruct (blob_size data >? 0); constructor; cbn; try done; by right.
Qed.

(** Every world the component can be in is orderly. *)
Lemma reachable_Orderly {typed : string → Prop} w :
  reachableWith gathered typed w → Orderly w.
Proof.
  induction 1 as [|w Hr IH Hst|answer w Hr IH Hst|v w Hr IH Hst Hv
                  |w Hr IH Hst|w Hr IH Hst|w url Hr IH Hst Hu Ht
                  |r w Hr IH|w Hr IH|w Hr IH].
  - apply Orderly_init.
  - apply (Orderly_rest w); cbn; try done; congruence.
  - destruct (pendingRequest w) as [c|] eqn:Hp;
      [|unfold requestPermission_settle; by rewrite Hp].
    rewrite (settle_eq answer w c Hst Hp).
    destruct answer as [n|e]; [|destruct (video c)];
      apply (Orderly_rest w); cbn; try done; try congruence;
      intros H; by destruct H.
  - apply (Orderly_rest w); cbn; try done; try congruence.
    intros _. apply IH. congruence.
  - by apply Orderly_start.
  - by apply Orderly_stop.
  - unfold handleNewRecording. rewrite Hu, Ht.
    apply (Orderly_rest w); cbn; try done; try congruence.
    intros _. apply IH. congruence.
  - by apply Orderly_sourceEnded.
  - by apply Orderly_elapse.
  - by apply Orderly_deliver.
Qed.

(** *** The permission request in the steps the browser runs it in *)

(** Answered at once, the request is the handler taken as one step. *)
Lemma handleRequestPermission_split gum w :
  pendingRequest w = None →
  handleRequestPermission gum w
  = let rear := mkConstraints (video_facing "environment") true in
    let w1 := requestPermission_settle (gum rear) (requestPermission_begin w) in
    match gum rear with
    | granted _ => w1
    | rejected _ =>
        requestPermission_settle (gum (mkConstraints video_any true)) w1
    end.
Proof.
  intros Hp. unfold handleRequestPermission, getUserMedia,
    requestPermission_settle, requestPermission_begin, permissionGranted.
  destruct w. cbn in Hp. subst. cbn.
  destruct (gum _); cbn; [reflexivity|].
  destruct (gum _); reflexivity.
Qed.

(** So the worlds the handler produces as one step are among those the
    component can be in. *)
Lemma reachable_requestPermission {typed : string → Prop} gum w :
  reachableWith gathered typed w → status w = idle →
  reachableWith gathered typed (handleRequestPermission gum w).
Proof.
  intros Hr Hst.
  assert (Hp : pendingRequest w = None).
  { apply (ord_pending w (reachable_Orderly w Hr)). congruence. }
  rewrite (handleRequestPermission_split gum w Hp). cbn zeta.
  pose proof (reach_requestPermission gathered typed w Hr Hst) as H0.
  assert (H1 : reachableWith gathered typed
                 (requestPermission_settle
                    (gum (mkConstraints (video_facing "environment") true))
                    (requestPermission_begin w))).
  { by apply reach_permissionAnswer. }
  destruct (gum (mkConstraints (video_facing "environment") true)) as [n|e];
    [done|].
  by apply reach_permissionAnswer.
Qed.

(** C4. RequestPermission from idle asks first for the rear-facing camera
    with the microphone, and asks once more, for any camera with the
    microphone, exactly when that first request is rejected.  A granted
    request stores the new live stream and makes the component [ready];
    two rejections set the error message and leave the component [idle]
    with no stored stream and no stream created. *)
Theorem C4_request_permission (gum : MediaStreamConstraints → GumResult)
    (w : World) :
  reachable gathered w → status w = idle →
  let rear := mkConstraints (video_facing "environment") true in
  let anyCamera := mkConstraints video_any true in
  let w' := handleRequestPermission gum w in
  (∀ n, gum rear = granted n →
     calls w' = calls w ++ [call_getUserMedia rear]
     ∧ status w' = ready
     ∧ ∃ s, mediaStream w' = Some s ∧ streams w' !! s = Some (replicate n live))
  ∧ (∀ e n, gum rear = rejected e → gum anyCamera = granted n →
     calls w' = calls w ++ [call_getUserMedia rear; call_getUserMedia anyCamera]
     ∧ status w' = ready
     ∧ ∃ s, mediaStream w' = Some s ∧ streams w' !! s = Some (replicate n live))
  ∧ (∀ e e', gum rear = rejected e → gum anyCamera = rejected e' →
     calls w' = calls w ++ [call_getUserMedia rear; call_getUserMedia anyCamera]
     ∧ error w' = Some permissionError
     ∧ status w' = idle
     ∧ mediaStream w' = None
     ∧ streams w' = streams w).
Proof.
  intros Hr Hst rear anyCamera w'.
  destruct (reachable_inv w Hr) as (I1 & _).
  assert (Hnone : mediaStream w = None).
  { destruct (mediaStream w) eqn:E; [|done].
    destruct I1 as [I1|I1]; [by eexists|congruence|congruence]. }
  subst w'. unfold handleRequestPermission, getUserMedia, permissionGranted.
  fold rear anyCamera. cbn.
  split_and!.
  - intros n ->. cbn. split_and!; [done|done|].
    eexists. split; [done|]. apply lookup_insert_eq.
  - intros e n -> ->. cbn. rewrite <- app_assoc. split_and!; [done|done|].
    eexists. split; [done|]. apply lookup_insert_eq.
  - intros e e' -> ->. cbn. rewrite <- app_assoc. done.
Qed.

Lemma capturing_true w :
  capturing w = true →
  ∃ r s, mediaRecorderRef w = Some r
         ∧ recorders w !! r = Some (mkRecorder s rs_recording).
Proof.
  unfold capturing. destruct (mediaRecorderRef w) as [r|] eqn:Hr; [|done].
  destruct (recorders w !! r) as [[s st]|] eqn:Hm; [|done].
  destruct st; try done. intros _. by exists r, s.
Qed.


(** What [recorder.onstop] produces, whatever the world. *)
Lemma onstop_artifact s w :
  artifacts (recorder_onstop s w) = S (artifacts w)
  ∧ status (recorder_onstop s w) = finished
  ∧ ∃ url, recordedVideoUrl (recorder_onstop s w) = Some url
           ∧ is_Some (objectURLs (recorder_onstop s w) !! url).
Proof.
  unfold recorder_onstop, createObjectURL, stopStopwatch, artifacts. cbn.
  destruct (stopwatchRef w); cbn;
    rewrite ?List.filter_app, ?length_app; cbn;
    (split_and!; [lia|reflexivity|]);
    eexists; (split; [reflexivity|]);
    rewrite lookup_insert_eq; eexists; reflexivity.
Qed.

(** C2. StopRecording does nothing unless the recorder is in state
    [recording]; when it is, a second call right after the first changes
    nothing more, so the recorder receives one [stop()], one finalize event
    is queued, and its delivery produces one artifact. *)
Theorem C2_stop_idempotent (w : World) :
  (capturing w = false → handleStopRecording gathered w = w)
  ∧ (capturing w = true →
     let w1 := handleStopRecording gathered w in
     let w2 := handleStopRecording gathered w1 in
     w2 = w1
     ∧ capturing w1 = false
     ∧ stopCalls w2 = S (stopCalls w)
     ∧ finalizeEvents w2 = S (finalizeEvents w)
     ∧ (tasks w = [] →
        let w3 := runTasks w2 in
        artifacts w3 = S (artifacts w)
        ∧ status w3 = finished
        ∧ ∃ url, recordedVideoUrl w3 = Some url
                 ∧ is_Some (objectURLs w3 !! url))).
Proof.
  split; [apply stop_not_capturing|].
  intros Hc w1 w2.
  destruct (capturing_true w Hc) as (r & s & Hr & Hm).
  pose proof (handleStop_capturing w r s Hr Hm) as E. cbn zeta in E.
  fold w1 in E.
  assert (Hc1 : capturing w1 = false).
  { rewrite E. unfold capturing.
    destruct (timerRef w); cbn; by rewrite Hr, lookup_insert_eq. }
  assert (Hcalls : stopCalls w1 = S (stopCalls w)).
  { rewrite E. unfold stopCalls.
    destruct (timerRef w); cbn; rewrite !List.filter_app, !length_app; cbn; lia. }
  assert (Htasks : tasks w1 = tasks w ++ [ev_dataavailable r (gathered r); ev_stop r]).
  { rewrite E. by destruct (timerRef w). }
  assert (E21 : w2 = w1) by (by apply stop_not_capturing).
  rewrite E21. split_and!; [done|done|done| |].
  - unfold finalizeEvents. rewrite Htasks, List.filter_app, length_app. cbn. lia.
  - intros Hq. rewrite Hq in Htasks. unfold runTasks. rewrite Htasks.
    cbn [fold_left runTask app].
    set (w3 := recorder_ondataavailable _ _).
    assert (H3 : recorders w3 !! r = Some (mkRecorder s rs_inactive)
                 ∧ artifacts w3 = artifacts w).
    { subst w3. rewrite E. unfold recorder_ondataavailable, artifacts.
      destruct (blob_size (gathered r) >? 0); destruct (timerRef w); cbn;
        rewrite lookup_insert_eq, ?List.filter_app, ?length_app; cbn;
        (split; [done|lia]). }
    destruct H3 as [-> <-]. cbn [rec_stream].
    destruct (onstop_artifact s w3) as (A1 & A2 & url & A3 & A4).
    split_and!; [done|done|]. by exists url.
Qed.

(** C7, as amended.  NewSession, invoked from [finished], revokes the
    artifact's locator, clears the stored locator, the error message and
    the elapsed-time counter, and makes the component [idle]; the
    accumulated fragments and the target duration keep their values. *)
Theorem C7_new_session (w : World) :
  reachable gathered w → status w = finished →
  let w' := handleNewRecording w in
  ∃ url, recordedVideoUrl w = Some url
    ∧ calls w' = calls w ++ [call_revokeObjectURL url]
    ∧ objectURLs w' !! url = None
    ∧ recordedVideoUrl w' = None
    ∧ error w' = None
    ∧ elapsedTime w' = 0
    ∧ status w' = idle
    ∧ recordedChunksRef w' = recordedChunksRef w
    ∧ duration w' = duration w.
Proof.
  intros Hr Hst w'.
  destruct (reachable_inv w Hr) as (_ & I2 & I3).
  destruct (I3 Hst) as [url Hu]. exists url.
  subst w'. unfold handleNewRecording. rewrite Hu, (I2 url Hu). cbn.
  split_and!; try done. apply lookup_delete_eq.
Qed.

(** C9. Without a stored media stream StartRecording changes nothing: the
    status, the recorders, the timers and the call trace are those of the
    world before the call. *)
Theorem C9_start_without_stream (w : World) :
  mediaStream w = None →
  handleStartRecording w = w.
Proof. intros H. unfold handleStartRecording. by rewrite H. Qed.

(** C10. A duration input that does not parse as an integer (the emptied
    input is one) stores [NaN], which is not greater than 0, so that a
    following StartRecording arms the stopwatch only: no timeout is armed
    and the timer ref keeps its value. *)
Theorem C10_unparsable_duration (value : string) (w : World) (s : nat) :
  parseInt value = JNaN → mediaStream w = Some s →
  let w1 := duration_onChange value w in
  let w2 := handleStartRecording w1 in
  parseInt EmptyString = JNaN
  ∧ Math_max (JNum 1) (parseInt value) = JNaN
  ∧ duration w1 = JNaN
  ∧ js_gt (duration w1) (JNum 0) = false
  ∧ timers w2 = timers w ++ [stopwatchTimer (nextTimerId w) (now w + 1000)]
  ∧ timerRef w2 = timerRef w
  ∧ timeoutCalls w2 = timeoutCalls w.
Proof.
  intros Hv Hs w1 w2.
  assert (Hd : duration w1 = JNaN) by (subst w1; cbn; by rewrite Hv).
  assert (E : w2 = handleStartRecording w1) by done.
  rewrite (handleStart_eq w1 s Hs), Hd in E. cbn zeta in E.
  split_and!; [done|by rewrite Hv|done|by rewrite Hd|by rewrite E..|].
  rewrite E. unfold timeoutCalls. cbn.
  rewrite !List.filter_app, !length_app. cbn. lia.
Qed.

(** C5 (the failing input). Emptying the duration input stores [NaN]: the
    stored duration is not a number that is at least 1. *)
Theorem C5_emptied_input_not_clamped (w : World) :
  duration (duration_onChange EmptyString w) = JNaN
  ∧ js_gt (duration (duration_onChange EmptyString w)) (JNum 0) = false.
Proof. done. Qed.

(** What does hold for C5: an input that parses as an integer is stored
    clamped from below by 1, so 0 and the negative integers are stored
    as 1. *)
Lemma duration_clamped_when_numeric (value : string) (z : Z) (w : World) :
  parseInt value = JNum z →
  duration (duration_onChange value w) = JNum (Z.max 1 z)
  ∧ (z ≤ 0 → duration (duration_onChange value w) = JNum 1).
Proof.
  intros Hv. unfold duration_onChange. cbn. rewrite Hv. cbn. split; [done|].
  intros Hz. f_equal. lia.
Qed.

End Proofs.

(** *** The theorems at concrete inputs *)

(** The fifth testable property: with the default duration of one minute
    and no manual stop, after 65 seconds the recording has stopped by
    itself, the counter reads 60, an artifact exists and the tracks are
    ended. *)
Example auto_stop_after_a_minute :
  let w := advance sampleData (Z.to_nat 65000) (handleStartRecording sampleReady) in
  status w = finished
  ∧ elapsedTime w = 60
  ∧ recordedVideoUrl w = Some "blob:0"
  ∧ is_Some (objectURLs w !! "blob:0")
  ∧ mediaStream w = None
  ∧ streams w !! 0%nat = Some [ended; ended]
  ∧ timers w = []
  ∧ autoStops w = 1%nat.
Proof. vm_compute. split_and!; try reflexivity. by eexists. Qed.

(** C1 on a browser without a rear camera: the duration is edited twice
    and the recording stopped by hand after a second and a half. *)
Lemma C1_witness :
  quiescent init ∧ permitted rearMissing 2
  ∧ let wF := recordingSession sampleData rearMissing ["0"; "3"] 1500 init in
    let w := session sampleData rearMissing ["0"; "3"] 1500 init in
    status w = idle
    ∧ mediaStream w = None
    ∧ streams w !! size (streams init) = Some (replicate 2 ended)
    ∧ recordedVideoUrl w = None
    ∧ quiescent w
    ∧ ∃ url, recordedVideoUrl wF = Some url
             ∧ is_Some (objectURLs wF !! url)
             ∧ objectURLs w !! url = None
             ∧ objectURLs w = delete url (objectURLs init).
Proof.
  assert (Hq : quiescent init) by (split; reflexivity).
  assert (Hp : permitted rearMissing 2).
  { right. split; [eexists; reflexivity|reflexivity]. }
  split; [exact Hq|]. split; [exact Hp|].
  exact (C1_session_no_leak sampleData rearMissing 2 ["0"; "3"] 1500 init Hq Hp).
Defined.

(** C2 on the fresh component (nothing to stop) and on a running capture. *)
Lemma C2_witness :
  (capturing init = false ∧ handleStopRecording sampleData init = init)
  ∧ capturing sampleCapturing = true
  ∧ tasks sampleCapturing = []
  ∧ let w1 := handleStopRecording sampleData sampleCapturing in
    let w2 := handleStopRecording sampleData w1 in
    w2 = w1
    ∧ stopCalls w2 = S (stopCalls sampleCapturing)
    ∧ finalizeEvents w2 = S (finalizeEvents sampleCapturing)
    ∧ artifacts (runTasks w2) = S (artifacts sampleCapturing)
    ∧ status (runTasks w2) = finished.
Proof.
  assert (H0 : capturing init = false) by reflexivity.
  assert (H1 : capturing sampleCapturing = true) by (vm_compute; reflexivity).
  assert (H2 : tasks sampleCapturing = []) by (vm_compute; reflexivity).
  split; [split; [exact H0|]|].
  - exact (proj1 (C2_stop_idempotent sampleData init) H0).
  - split; [exact H1|]. split; [exact H2|].
    destruct (proj2 (C2_stop_idempotent sampleData sampleCapturing) H1)
      as (E1 & _ & E2 & E3 & E4).
    destruct (E4 H2) as (E5 & E6 & _).
    exact (conj E1 (conj E2 (conj E3 (conj E5 E6)))).
Defined.





(** C4 on the fresh component in a browser that rejects both requests. *)
Lemma C4_witness :
  reachable sampleData init ∧ status init = idle
  ∧ let w' := handleRequestPermission denyAll init in
    calls w'
    = [call_getUserMedia (mkConstraints (video_facing "environment") true);
       call_getUserMedia (mkConstraints video_any true)]
    ∧ error w' = Some permissionError
    ∧ status w' = idle
    ∧ mediaStream w' = None
    ∧ streams w' = streams init.
Proof.
  split; [apply reach_init|]. split; [reflexivity|].
  exact (proj2 (proj2 (C4_request_permission sampleData denyAll init
                         (reach_init sampleData _) eq_refl))
           _ _ eq_refl eq_refl).
Defined.

Lemma sampleFinished_reachable : reachable sampleData sampleFinished.
Proof.
  unfold sampleFinished, sampleReady, reachable.
  do 2 apply reach_deliver.
  apply reach_stopRecording; [|vm_compute; reflexivity].
  apply reach_startRecording; [|vm_compute; reflexivity].
  apply reach_durationChange; [|vm_compute; reflexivity|exact I].
  apply reachable_requestPermission; [apply reach_init|reflexivity].
Defined.

(** C7 on a finished recording made with the duration set to 5. *)
Lemma C7_witness :
  reachable sampleData sampleFinished ∧ status sampleFinished = finished
  ∧ let w' := handleNewRecording sampleFinished in
    ∃ url, recordedVideoUrl sampleFinished = Some url
      ∧ calls w' = calls sampleFinished ++ [call_revokeObjectURL url]
      ∧ objectURLs w' !! url = None
      ∧ recordedVideoUrl w' = None
      ∧ error w' = None
      ∧ elapsedTime w' = 0
      ∧ status w' = idle
      ∧ recordedChunksRef w' = recordedChunksRef sampleFinished
      ∧ duration w' = duration sampleFinished.
Proof.
  assert (Hst : status sampleFinished = finished) by (vm_compute; reflexivity).
  split; [exact sampleFinished_reachable|]. split; [exact Hst|].
  exact (C7_new_session sampleData sampleFinished sampleFinished_reachable Hst).
Defined.

(** C7 as worded fails on that finished recording: after NewSession the
    fragment sequence still holds the recorded fragment and the target
    duration is still 5, not the initial 1. *)
Lemma C7_counterexample :
  status sampleFinished = finished
  ∧ duration (handleNewRecording sampleFinished) = JNum 5
  ∧ recordedChunksRef (handleNewRecording sampleFinished) = [sampleData 0%nat]
  ∧ ¬ clearsAllAttributes sampleFinished.
Proof.
  split_and!; [by vm_compute..|].
  intros (_ & _ & _ & _ & _ & Hd & _). vm_compute in Hd. discriminate.
Qed.

(** C9 on the fresh component. *)
Lemma C9_witness :
  mediaStream init = None ∧ handleStartRecording init = init.
Proof.
  split; [reflexivity|].
  exact (C9_start_without_stream init eq_refl).
Defined.

(** C10 on the ready component after the duration input was emptied. *)
Lemma C10_witness :
  parseInt EmptyString = JNaN ∧ mediaStream sampleReady = Some 0%nat
  ∧ let w1 := duration_onChange EmptyString sampleReady in
    let w2 := handleStartRecording w1 in
    duration w1 = JNaN
    ∧ timers w2
      = timers sampleReady
        ++ [stopwatchTimer (nextTimerId sampleReady) (now sampleReady + 1000)]
    ∧ timerRef w2 = timerRef sampleReady
    ∧ timeoutCalls w2 = timeoutCalls sampleReady.
Proof.
  split; [reflexivity|]. split; [reflexivity|].
  destruct (C10_unparsable_duration EmptyString sampleReady 0 eq_refl eq_refl)
    as (_ & _ & E1 & _ & E2 & E3 & E4).
  exact (conj E1 (conj E2 (conj E3 E4))).
Defined.

End RecorderSpec.

(** ** The image analysis widget and the inference client *)

Module AnalyzerSpec.

Import Gemini Analyzer.

(** Rendering creates locators and never touches the four state cells. *)
Lemma render_cells (w : World) :
  file (render w) = file w ∧ status (render w) = status w
  ∧ result (render w) = result w ∧ errorText (render w) = errorText w.
Proof.
  unfold render. destruct (sameFile (file w) (previewDep w)); [done|].
  by destruct (file w).
Qed.

Lemma render_status (w : World) : status (render w) = status w.
Proof. apply render_cells. Qed.

Lemma render_errorText (w : World) : errorText (render w) = errorText w.
Proof. apply render_cells. Qed.

(** What Analyze shows when the client throws an [Error]. *)
Lemma handleAnalyze_throw (client : File → JsResult string) (f : File)
    (m : string) (w : World) :
  file w = Some f → client f = js_throw (js_Error m) →
  status (handleAnalyze client w) = error
  ∧ errorText (handleAnalyze client w) = m.
Proof.
  intros Hf Hc. unfold handleAnalyze. rewrite Hf, Hc. cbn zeta.
  by rewrite render_status, render_errorText.
Qed.

(** A render that finds no file selected leaves the locator store as it is:
    nothing is revoked. *)
Lemma render_without_file (w : World) :
  file w = None → objectURLs (render w) = objectURLs w.
Proof.
  intros H. unfold render. rewrite H.
  by destruct (sameFile None (previewDep w)).
Qed.

(** The client never returns normally from a failed request, and what it
    throws is always an [Error]. *)
Lemma client_rethrows readAsDataURL generateContent (f : File) (e : JsThrown) :
  requestDescription readAsDataURL generateContent f = js_throw e →
  ∃ m, analyzeImageWithGemini readAsDataURL generateContent f
       = js_throw (js_Error m).
Proof.
  intros H. unfold analyzeImageWithGemini. rewrite H.
  destruct e as [m|]; [|by eexists]. by destruct (includes m _); eexists.
Qed.

(** C6, as amended.  The clear action, from any state, resets the widget to
    [idle] with the file, the result and the error cleared; it revokes
    nothing: every locator that was live before it, the preview locator of
    the previously selected file included, is live after it. *)
Theorem C6_clear_resets_without_revoking (w : World) :
  let w' := handleClear w in
  file w' = None
  ∧ status w' = idle
  ∧ result w' = EmptyString
  ∧ errorText w' = EmptyString
  ∧ objectURLs w' = objectURLs w.
Proof.
  intros w'. subst w'. unfold handleClear. cbn zeta.
  set (w1 := match fileInput _ with Some _ => _ | None => _ end).
  assert (H1 : file w1 = None ∧ status w1 = idle ∧ result w1 = EmptyString
               ∧ errorText w1 = EmptyString ∧ objectURLs w1 = objectURLs w).
  { subst w1. cbn. by destruct (fileInput w). }
  destruct H1 as (F1 & F2 & F3 & F4 & F5).
  destruct (render_cells w1) as (E1 & E2 & E3 & E4).
  rewrite E1, E2, E3, E4, (render_without_file w1 F1). done.
Qed.

(** C6 as worded fails once a file is selected: its preview locator still
    resolves to the file's bytes after the clear action. *)
Lemma C6_counterexample :
  previewUrl sampleSelected = Some "blob:0"
  ∧ objectURLs (handleClear sampleSelected) !! "blob:0"
    = Some (file_blob sampleFile)
  ∧ ¬ clearReleasesPreview sampleSelected.
Proof.
  assert (H1 : previewUrl sampleSelected = Some "blob:0") by (by vm_compute).
  assert (H2 : objectURLs (handleClear sampleSelected) !! "blob:0"
               = Some (file_blob sampleFile)) by (by vm_compute).
  split_and!; [done..|].
  intros (_ & _ & _ & _ & H). specialize (H _ H1). congruence.
Qed.

(** C8. When the request made by the client fails with an [Error] whose
    message contains "API key not valid", Analyze leaves the widget in
    state [error] showing exactly the configuration message; when it fails
    with any other [Error], the widget is in state [error] and shows the
    underlying message behind the client's fixed prefix. *)
Theorem C8_analyze_surfaces_errors
    (readAsDataURL : File → JsResult string)
    (generateContent : GenerateContentRequest → JsResult string)
    (f : File) (m : string) (w : World) :
  file w = Some f →
  requestDescription readAsDataURL generateContent f = js_throw (js_Error m) →
  let w' :=
    handleAnalyze (analyzeImageWithGemini readAsDataURL generateContent) w in
  status w' = error
  ∧ (includes m "API key not valid" = true →
     errorText w'
     = "The configured API key is invalid. Please check your setup.")
  ∧ (includes m "API key not valid" = false →
     errorText w'
     = "An error occurred while communicating with the API: " +:+ m
     ∧ includes (errorText w') m = true).
Proof.
  intros Hf Hreq w'. subst w'.
  destruct (includes m "API key not valid") eqn:Hkey.
  - destruct (handleAnalyze_throw
                (analyzeImageWithGemini readAsDataURL generateContent)
                f invalidKeyMessage w Hf) as (E1 & E2).
    { unfold analyzeImageWithGemini. by rewrite Hreq, Hkey. }
    by split_and!.
  - destruct (handleAnalyze_throw
                (analyzeImageWithGemini readAsDataURL generateContent)
                f (apiErrorPrefix +:+ m) w Hf) as (E1 & E2).
    { unfold analyzeImageWithGemini. by rewrite Hreq, Hkey. }
    split_and!; [done|done|].
    intros _. rewrite E2. split; [done|]. apply JsFacts.includes_app.
Qed.

(** C8 on a selected file, with an endpoint that rejects the key. *)
Lemma C8_witness :
  file sampleSelected = Some sampleFile
  ∧ requestDescription sampleReader invalidKeyEndpoint sampleFile
    = js_throw (js_Error "API key not valid. Please pass a valid API key.")
  ∧ let w' :=
      handleAnalyze (analyzeImageWithGemini sampleReader invalidKeyEndpoint)
        sampleSelected in
    status w' = error
    ∧ errorText w'
      = "The configured API key is invalid. Please check your setup.".
Proof.
  assert (Hf : file sampleSelected = Some sampleFile) by reflexivity.
  assert (Hr : requestDescription sampleReader invalidKeyEndpoint sampleFile
               = js_throw (js_Error "API key not valid. Please pass a valid API key."))
    by reflexivity.
  split; [exact Hf|]. split; [exact Hr|].
  destruct (C8_analyze_surfaces_errors sampleReader invalidKeyEndpoint
              sampleFile _ sampleSelected Hf Hr) as (E1 & E2 & _).
  exact (conj E1 (E2 eq_refl)).
Defined.

(** The other branch at a concrete input: a service error keeps its
    message. *)
Example C8_service_error :
  errorText
    (handleAnalyze (analyzeImageWithGemini sampleReader overloadedEndpoint)
       sampleSelected)
  = "An error occurred while communicating with the API: 503 Service Unavailable".
Proof. by vm_compute. Qed.

(** The sixth testable property: a description returned by the client is
    displayed as it is, in state [success]. *)
Example analyze_success :
  let w' := handleAnalyze (λ _, js_return "A cat on a chair.") sampleSelected in
  status w' = success ∧ result w' = "A cat on a chair.".
Proof. by vm_compute. Qed.

End AnalyzerSpec.


Module JsMoreFacts.

Import RecorderView.

Lemma parseDigits_stops (acc : option Z) (s : string) :
  stops s → parseDigits acc s = acc.
Proof. destruct s as [|c r]; [done|]. cbn. by intros ->. Qed.

Lemma digitValue_pretty_N_char (d : N) :
  (d < 10)%N → digitValue (pretty_N_char d) = Some (Z.of_N d).
Proof.
  intros Hd.
  assert (d = 0 ∨ d = 1 ∨ d = 2 ∨ d = 3 ∨ d = 4 ∨ d = 5 ∨ d = 6 ∨ d = 7
          ∨ d = 8 ∨ d = 9)%N as H by lia.
  destruct H as [->|[->|[->|[->|[->|[->|[->|[->|[->| ->]]]]]]]]]; reflexivity.
Qed.

(** Reading the digits [pretty_N_go] puts in front of [s]: the number read
    so far is shifted by a power of ten that depends on [x] only. *)
Lemma parseDigits_pretty_N_go (x : N) :
  (0 < x)%N →
  ∃ p, 0 < p ∧ Z.of_N x < p ∧ ∀ a s,
    parseDigits (Some a) (pretty_N_go x s) = parseDigits (Some (a * p + Z.of_N x)) s.
Proof.
  induction (N.lt_wf_0 x) as [x _ IH]. intros Hx.
  assert (Hmod : (x `mod` 10 < 10)%N) by (apply N.mod_lt; lia).
  assert (Hdiv : x = (10 * (x `div` 10) + x `mod` 10)%N)
    by (apply N.div_mod; lia).
  destruct (decide (x `div` 10 = 0)%N) as [H0|Hn0].
  - assert (Hx10 : Z.of_N x = Z.of_N (x `mod` 10)) by (rewrite H0 in Hdiv; lia).
    exists 10. split; [done|]. split; [clear IH; lia|]. intros a s.
    rewrite pretty_N_go_step, H0, pretty_N_go_0 by done. cbn [parseDigits].
    rewrite digitValue_pretty_N_char by done. cbn [default from_option id].
    by replace (10 * a + Z.of_N (x `mod` 10)) with (a * 10 + Z.of_N x) by lia.
  - destruct (IH (x `div` 10)%N) as (p & Hp & Hlt & Hrec).
    { apply N.div_lt; lia. }
    { lia. }
    assert (Hx10 : Z.of_N x = 10 * Z.of_N (x `div` 10) + Z.of_N (x `mod` 10))
      by lia.
    exists (p * 10). split; [clear IH; lia|]. split; [clear IH Hrec; lia|]. intros a s.
    rewrite pretty_N_go_step, Hrec by done. cbn [parseDigits].
    rewrite digitValue_pretty_N_char by done. cbn [default from_option id].
    by replace (10 * (a * p + Z.of_N (x `div` 10)) + Z.of_N (x `mod` 10))
      with (a * (p * 10) + Z.of_N x) by lia.
Qed.

Lemma parseDigits_None_Some0 (s : string) :
  ¬ stops s → parseDigits None s = parseDigits (Some 0) s.
Proof.
  destruct s as [|c r]; [by intros []|]. cbn.
  by destruct (digitValue c).
Qed.

Lemma append_cons (x : ascii) (a b : string) :
  String x a +:+ b = String x (a +:+ b).
Proof. reflexivity. Qed.

Lemma append_assoc (a b c : string) : (a +:+ b) +:+ c = a +:+ b +:+ c.
Proof. induction a as [|x a IH]; [done|]. by rewrite !append_cons, IH. Qed.

Lemma length_append (a b : string) :
  String.length (a +:+ b) = (String.length a + String.length b)%nat.
Proof.
  induction a as [|x a IH]; [done|]. rewrite append_cons. cbn. by rewrite IH.
Qed.

(** [pretty_N_go] only puts characters in front of its accumulator. *)
Lemma pretty_N_go_append (x : N) (s : string) :
  pretty_N_go x s = pretty_N_go x EmptyString +:+ s.
Proof.
  revert s. induction (N.lt_wf_0 x) as [x _ IH]. intros s.
  destruct (decide (0 < x)%N) as [Hx|Hx].
  - rewrite (pretty_N_go_step x s), (pretty_N_go_step x EmptyString) by done.
    assert (Hlt : (x `div` 10 < x)%N) by (apply N.div_lt; lia).
    rewrite (IH _ Hlt (String (pretty_N_char (x `mod` 10)) s)).
    rewrite (IH _ Hlt (String (pretty_N_char (x `mod` 10)) EmptyString)).
    by rewrite append_assoc.
  - assert (x = 0%N) as -> by lia. by rewrite !pretty_N_go_0.
Qed.

(** The rendering of a positive number starts with a digit. *)
Lemma pretty_N_go_head (x : N) (s : string) :
  (0 < x)%N →
  ∃ d r, (d < 10)%N ∧ pretty_N_go x s = String (pretty_N_char d) r.
Proof.
  revert s. induction (N.lt_wf_0 x) as [x _ IH]. intros s Hx.
  rewrite pretty_N_go_step by done.
  destruct (decide (0 < x `div` 10)%N) as [Hd|Hd].
  - apply IH; [|done]. by apply N.div_lt.
  - destruct (x `div` 10)%N as [|q] eqn:Eq; [|by destruct Hd].
    rewrite pretty_N_go_0.
    eexists _, _. split; [|done]. by apply N.mod_lt.
Qed.

Lemma pretty_N_char_plain (d : N) :
  (d < 10)%N →
  isWhiteSpace (pretty_N_char d) = false
  ∧ pretty_N_char d ≠ "-"%char ∧ pretty_N_char d ≠ "+"%char
  ∧ pretty_N_char d ≠ ":"%char.
Proof.
  intros Hd.
  assert (d = 0 ∨ d = 1 ∨ d = 2 ∨ d = 3 ∨ d = 4 ∨ d = 5 ∨ d = 6 ∨ d = 7
          ∨ d = 8 ∨ d = 9)%N as H by lia.
  destruct H as [->|[->|[->|[->|[->|[->|[->|[->|[->| ->]]]]]]]]]; done.
Qed.

(** The rendering of a natural number: a digit first, and read back by
    [parseDigits] whatever non-digit text follows. *)
Lemma pretty_N_read (x : N) (rest : string) :
  stops rest →
  (∃ d r, (d < 10)%N ∧ pretty x +:+ rest = String (pretty_N_char d) r)
  ∧ parseDigits None (pretty x +:+ rest) = Some (Z.of_N x).
Proof.
  intros Hrest. unfold pretty, pretty_N.
  destruct (decide (x = 0%N)) as [->|Hx].
  - split; [exists 0%N, rest; split; reflexivity|].
    rewrite append_cons. cbn [parseDigits]. change (digitValue "0") with (Some 0).
    cbn [default from_option id]. by rewrite parseDigits_stops.
  - assert (Hpos : (0 < x)%N) by lia.
    rewrite <- pretty_N_go_append.
    destruct (pretty_N_go_head x rest Hpos) as (d & r & Hd & E).
    split; [by exists d, r|].
    rewrite parseDigits_None_Some0.
    + destruct (parseDigits_pretty_N_go x Hpos) as (p & _ & _ & Hp).
      rewrite Hp, parseDigits_stops by done. f_equal; lia.
    + rewrite E. cbn. by rewrite digitValue_pretty_N_char.
Qed.

Lemma parseInt_digit_first (d : N) (r : string) :
  (d < 10)%N →
  parseInt (String (pretty_N_char d) r)
  = match parseDigits None (String (pretty_N_char d) r) with
    | Some m => JNum (1 * m)
    | None => JNaN
    end.
Proof.
  intros Hd.
  assert (d = 0 ∨ d = 1 ∨ d = 2 ∨ d = 3 ∨ d = 4 ∨ d = 5 ∨ d = 6 ∨ d = 7
          ∨ d = 8 ∨ d = 9)%N as H by lia.
  destruct H as [->|[->|[->|[->|[->|[->|[->|[->|[->| ->]]]]]]]]]; reflexivity.
Qed.

Lemma parseInt_minus_first (r : string) :
  parseInt (String "-" r)
  = match parseDigits None r with
    | Some m => JNum (-1 * m)
    | None => JNaN
    end.
Proof. reflexivity. Qed.

(** [parseInt(n.toString() + rest, 10)] is [n], for every integer [n] and
    every [rest] that does not go on with a digit. *)
Lemma parseInt_toString (n : Z) (rest : string) :
  stops rest → parseInt (toString n +:+ rest) = JNum n.
Proof.
  intros Hrest. unfold toString, pretty, pretty_Z.
  destruct n as [|p|p].
  - destruct (pretty_N_read 0 rest Hrest) as ((d & r & Hd & E) & H).
    change (pretty 0%N) with "0" in E, H.
    rewrite E, parseInt_digit_first, <- E, H by done. done.
  - change (pretty p) with (pretty (N.pos p)).
    destruct (pretty_N_read (N.pos p) rest Hrest) as ((d & r & Hd & E) & H).
    rewrite E, parseInt_digit_first, <- E, H by done. done.
  - change (pretty p) with (pretty (N.pos p)).
    destruct (pretty_N_read (N.pos p) rest Hrest) as (_ & H).
    change (("-" +:+ pretty (N.pos p)) +:+ rest)
      with (String "-" (pretty (N.pos p) +:+ rest)).
    rewrite parseInt_minus_first, H. done.
Qed.

(** In particular a number's own rendering parses back to it. *)
Lemma parseInt_toString_exact (n : Z) : parseInt (toString n) = JNum n.
Proof.
  rewrite <- (parseInt_toString n EmptyString I). f_equal.
  generalize (toString n). intros s.
  induction s as [|c s IH]; [done|]. by rewrite append_cons, <- IH.
Qed.

Lemma toString_nonneg (k : Z) : 0 ≤ k → toString k = pretty (Z.to_N k).
Proof. destruct k; [done|done|lia]. Qed.

(** One digit below ten, at least two from ten on, exactly two below a
    hundred. *)
Lemma toString_length (k : Z) :
  0 ≤ k →
  (k < 10 → String.length (toString k) = 1%nat)
  ∧ (10 ≤ k → (2 ≤ String.length (toString k))%nat)
  ∧ (10 ≤ k < 100 → String.length (toString k) = 2%nat).
Proof.
  intros Hk. rewrite toString_nonneg by done. split_and!.
  - intros Hlt.
    assert (k = 0 ∨ k = 1 ∨ k = 2 ∨ k = 3 ∨ k = 4 ∨ k = 5 ∨ k = 6 ∨ k = 7
            ∨ k = 8 ∨ k = 9) as H by lia.
    destruct H as [->|[->|[->|[->|[->|[->|[->|[->|[->| ->]]]]]]]]]; reflexivity.
  - intros Hge. unfold pretty, pretty_N.
    destruct (decide (Z.to_N k = 0%N)); [lia|].
    rewrite pretty_N_go_step by lia.
    rewrite pretty_N_go_step by (apply N.div_str_pos; lia).
    rewrite pretty_N_go_append, length_append. cbn. lia.
  - intros [Hge Hlt]. unfold pretty, pretty_N.
    destruct (decide (Z.to_N k = 0%N)); [lia|].
    rewrite pretty_N_go_step by lia.
    rewrite pretty_N_go_step by (apply N.div_str_pos; lia).
    assert ((Z.to_N k `div` 10) `div` 10 = 0)%N as ->; [|done].
    apply N.div_small. apply N.Div0.div_lt_upper_bound. lia.
Qed.

Lemma padStart_short (s : string) :
  String.length s = 1%nat → padStart 2 "0" s = String "0" s.
Proof. intros H. unfold padStart. by rewrite H. Qed.

Lemma padStart_long (s : string) :
  (2 ≤ String.length s)%nat → padStart 2 "0" s = s.
Proof.
  intros H. unfold padStart.
  by replace (2 - String.length s)%nat with 0%nat by lia.
Qed.

(** A field of the clock: at least two characters, exactly two below a
    hundred, and read back by [parseInt] whatever non-digit text follows. *)
Lemma padded_field (k : Z) (rest : string) :
  0 ≤ k → stops rest →
  (2 ≤ String.length (padStart 2 "0" (toString k)))%nat
  ∧ (k < 100 → String.length (padStart 2 "0" (toString k)) = 2%nat)
  ∧ parseInt (padStart 2 "0" (toString k) +:+ rest) = JNum k.
Proof.
  intros Hk Hrest.
  destruct (toString_length k Hk) as (L1 & L2 & L3).
  destruct (Z.lt_ge_cases k 10) as [Hlt|Hge].
  - rewrite padStart_short by auto. split_and!.
    + cbn. rewrite L1 by done. lia.
    + intros _. cbn. by rewrite L1.
    + rewrite append_cons.
      rewrite (parseInt_digit_first 0) by done.
      cbn [parseDigits]. change (digitValue (pretty_N_char 0)) with (Some 0).
      cbn [default from_option id].
      rewrite toString_nonneg by done.
      destruct (pretty_N_read (Z.to_N k) rest Hrest) as ((d & r & Hd & E) & H).
      rewrite <- parseDigits_None_Some0, H.
      * f_equal. lia.
      * rewrite E. cbn. by rewrite digitValue_pretty_N_char.
  - rewrite padStart_long by auto. split_and!.
    + auto.
    + intros Hlt. apply L3. lia.
    + by apply parseInt_toString.
Qed.

End JsMoreFacts.

Module ViewSpec.

Import Recorder RecorderView JsMoreFacts.

Lemma colon_stops (s : string) : stops (":" +:+ s).
Proof. reflexivity. Qed.

Lemma append_nil_r (s : string) : s +:+ EmptyString = s.
Proof. induction s as [|c s IH]; [done|]. by rewrite append_cons, IH. Qed.

(** The two fields of the displayed time. *)
Lemma formatTime_fields (s : Z) :
  0 ≤ s →
  ∃ mm ss,
    formatTime s = mm +:+ ":" +:+ ss
    ∧ (2 ≤ String.length mm)%nat
    ∧ String.length ss = 2%nat
    ∧ parseInt mm = JNum (s / 60)
    ∧ parseInt ss = JNum (s mod 60)
    ∧ parseInt (formatTime s) = JNum (s / 60)
    ∧ (s < 6000 → String.length (formatTime s) = 5%nat).
Proof.
  intros Hs.
  assert (Hm : 0 ≤ s / 60) by (apply Z.div_pos; lia).
  assert (Hr : 0 ≤ s mod 60 < 60) by (apply Z.mod_pos_bound; lia).
  assert (Hrem : Z.rem s 60 = s mod 60) by (apply Z.rem_mod_nonneg; lia).
  unfold formatTime. cbn zeta. rewrite Hrem.
  set (mm := padStart 2 "0" (toString (s / 60))).
  set (ss := padStart 2 "0" (toString (s mod 60))).
  destruct (padded_field (s / 60) (":" +:+ ss) Hm (colon_stops ss))
    as (M1 & M2 & M3).
  destruct (padded_field (s / 60) EmptyString Hm I) as (_ & _ & M4).
  destruct (padded_field (s mod 60) EmptyString (proj1 Hr) I) as (S1 & S2 & S3).
  fold mm in M1, M2, M3, M4. fold ss in S1, S2, S3.
  rewrite append_nil_r in M4, S3.
  exists mm, ss. split_and!; try done.
  - apply S2. lia.
  - intros Hlt. rewrite !length_append, M2, S2;
      [done|lia|apply Z.div_lt_upper_bound; lia].
Qed.

(** X1. For an elapsed time of [s] seconds, a safe integer that is not
    negative, [formatTime] shows the whole minutes, a colon and the
    remaining seconds: the minutes field has at least two characters, the
    seconds field exactly two, [parseInt] reads [s / 60] and [s mod 60]
    back from them, and below a hundred minutes the text is five
    characters long. *)
Theorem formatTime_reads_back (s : Z) :
  0 ≤ s ≤ MAX_SAFE_INTEGER →
  ∃ mm ss,
    formatTime s = mm +:+ ":" +:+ ss
    ∧ (2 ≤ String.length mm)%nat
    ∧ String.length ss = 2%nat
    ∧ parseInt mm = JNum (s / 60)
    ∧ parseInt ss = JNum (s mod 60)
    ∧ parseInt (formatTime s) = JNum (s / 60)
    ∧ (s < 6000 → String.length (formatTime s) = 5%nat).
Proof. intros [Hs _]. by apply formatTime_fields. Qed.

(** X2. Distinct elapsed times, safe integers that are not negative, are
    displayed differently. *)
Theorem formatTime_inj (s t : Z) :
  0 ≤ s ≤ MAX_SAFE_INTEGER → 0 ≤ t ≤ MAX_SAFE_INTEGER →
  formatTime s = formatTime t → s = t.
Proof.
  intros [Hs _] [Ht _] E.
  destruct (formatTime_fields s Hs) as (ms & ss & Es & _ & _ & _ & Rs & Ms & _).
  destruct (formatTime_fields t Ht) as (mt & st & Et & _ & _ & _ & Rt & Mt & _).
  assert (Hq : s / 60 = t / 60) by (rewrite E in Ms; congruence).
  assert (Hr : s mod 60 = t mod 60).
  { unfold formatTime in Es, Et, E. cbn zeta in *.
    rewrite Hq in E.
    apply (inj (String.append _)) in E. injection E as E.
    change (padStart 2 "0" (toString (Z.rem s 60))
            = padStart 2 "0" (toString (Z.rem t 60))) in E.
    assert (Z.rem s 60 = s mod 60) as Hrs by (apply Z.rem_mod_nonneg; lia).
    assert (Z.rem t 60 = t mod 60) as Hrt by (apply Z.rem_mod_nonneg; lia).
    rewrite Hrs, Hrt in E.
    assert (0 ≤ s mod 60) as H1 by (apply Z.mod_pos_bound; lia).
    assert (0 ≤ t mod 60) as H2 by (apply Z.mod_pos_bound; lia).
    destruct (padded_field (s mod 60) EmptyString H1 I) as (_ & _ & P1).
    destruct (padded_field (t mod 60) EmptyString H2 I) as (_ & _ & P2).
    rewrite append_nil_r in P1, P2. rewrite E in P1. congruence. }
  rewrite (Z.div_mod s 60), (Z.div_mod t 60) by lia. congruence.
Qed.

(** X1 at twelve minutes and thirty-four seconds. *)
Lemma formatTime_reads_back_witness :
  0 ≤ 754 ≤ MAX_SAFE_INTEGER
  ∧ parseInt (formatTime 754) = JNum 12
  ∧ String.length (formatTime 754) = 5%nat.
Proof.
  assert (H : 0 ≤ 754 ≤ MAX_SAFE_INTEGER) by (unfold MAX_SAFE_INTEGER; lia).
  destruct (formatTime_reads_back 754 H)
    as (mm & ss & _ & _ & _ & _ & _ & E & L).
  exact (conj H (conj E (L ltac:(lia)))).
Defined.

(** X2 on one time written in two ways. *)
Lemma formatTime_inj_witness :
  0 ≤ 754 ≤ MAX_SAFE_INTEGER ∧ 0 ≤ 12 * 60 + 34 ≤ MAX_SAFE_INTEGER
  ∧ formatTime 754 = formatTime (12 * 60 + 34)
  ∧ 754 = 12 * 60 + 34.
Proof.
  assert (H1 : 0 ≤ 754 ≤ MAX_SAFE_INTEGER) by (unfold MAX_SAFE_INTEGER; lia).
  assert (H2 : 0 ≤ 12 * 60 + 34 ≤ MAX_SAFE_INTEGER)
    by (unfold MAX_SAFE_INTEGER; lia).
  assert (H3 : formatTime 754 = formatTime (12 * 60 + 34)) by reflexivity.
  exact (conj H1 (conj H2 (conj H3 (formatTime_inj _ _ H1 H2 H3)))).
Defined.

End ViewSpec.


Module RecorderMoreSpec.

Import Recorder RecorderView.

Section Proofs.

Variable gathered : nat → Blob.

Lemma sameRefs_refl w : sameRefs w w.
Proof. split_and!; [done|done|lia|]. intros r m H. by exists m. Qed.

Lemma sameRefs_trans w1 w2 w3 :
  sameRefs w1 w2 → sameRefs w2 w3 → sameRefs w1 w3.
Proof.
  intros (A1 & A2 & A3 & A4) (B1 & B2 & B3 & B4).
  split_and!; [congruence|congruence|lia|].
  intros r m H. destruct (A4 r m H) as (m' & H' & E').
  destruct (B4 r m' H') as (m'' & H'' & E''). exists m''. split; congruence.
Qed.

Lemma stop_sameRefs w : sameRefs w (handleStopRecording gathered w).
Proof.
  destruct (capturing w) eqn:Hc.
  - destruct (RecorderSpec.capturing_true w Hc) as (r & s & Hr & Hm).
    rewrite (RecorderSpec.handleStop_capturing gathered w r s Hr Hm). cbn zeta.
    assert (Hrec : ∀ r0 m, recorders w !! r0 = Some m →
              ∃ m', <[r := mkRecorder s rs_inactive]> (recorders w) !! r0 = Some m'
                    ∧ rec_stream m' = rec_stream m).
    { intros r0 m H. destruct (decide (r = r0)) as [->|Hne].
      - rewrite lookup_insert_eq. eexists. split; [done|].
        rewrite Hm in H. by injection H as <-.
      - rewrite lookup_insert_ne by done. by exists m. }
    destruct (timerRef w); (split_and!; [done|done|cbn; lia|exact Hrec]).
  - rewrite (RecorderSpec.stop_not_capturing gathered w Hc).
    apply sameRefs_refl.
Qed.

Lemma fireTimer_sameRefs t w : sameRefs w (fireTimer gathered t w).
Proof.
  unfold fireTimer. destruct (pending (t_id t) w); [|apply sameRefs_refl].
  destruct (t_cb t); cbn [runCallback].
  - eapply sameRefs_trans; [|apply stop_sameRefs].
    split_and!; [done|done|cbn; lia|]. intros r m H. by exists m.
  - split_and!; [done|done|cbn; lia|]. intros r m H. by exists m.
Qed.

Lemma fireAll_sameRefs due w :
  sameRefs w (fold_left (λ w t, fireTimer gathered t w) due w).
Proof.
  revert w. induction due as [|t due IH]; intros w; simpl.
  - apply sameRefs_refl.
  - eapply sameRefs_trans; [apply fireTimer_sameRefs|apply IH].
Qed.

Lemma elapse_sameRefs w : sameRefs w (elapse gathered w).
Proof.
  unfold elapse. eapply sameRefs_trans; [|apply fireAll_sameRefs].
  split_and!; [done|done|cbn; lia|]. intros r m H. by exists m.
Qed.

Lemma frames_wellFormed w w' :
  sameSession w w' → sameRefs w w' → wellFormed w → wellFormed w'.
Proof.
  intros (S1 & S2 & S3 & S4 & S5 & S6 & S7 & S8 & S9) (R1 & R2 & R3 & R4)
    (A & C & D & E & F & U).
  split_and!; [| | | | |by rewrite S3, S7].
  - congruence.
  - unfold errorIsPermission. by rewrite S4, S1.
  - intros s trk. rewrite S6, S2. apply D.
  - intros Hst. rewrite S1 in Hst. destruct (E Hst) as (r & m & E1 & E2 & E3).
    destruct (R4 r m E2) as (m' & E2' & E4).
    exists r, m'. split_and!; congruence.
  - lia.
Qed.

Lemma begin_wellFormed w :
  wellFormed w → status w = idle → wellFormed (requestPermission_begin w).
Proof.
  intros (A & C & D & E & F & U) Hst.
  split_and!; try done; by left.
Qed.

Lemma settle_wellFormed answer w :
  wellFormed w → status w = permission_pending → mediaStream w = None →
  wellFormed (requestPermission_settle answer w).
Proof.
  intros (A & C & D & E & F & U) Hst Hnone.
  destruct (pendingRequest w) as [c|] eqn:Hp;
    [|unfold requestPermission_settle; by rewrite Hp].
  rewrite (RecorderSpec.settle_eq answer w c Hst Hp).
  assert (Herr : error w = None).
  { destruct C as [C|[_ C]]; [done|congruence]. }
  assert (Hold : ∀ s trk, streams w !! s = Some trk → Forall (λ t, t = ended) trk).
  { intros s trk H. destruct (D s trk H) as [H'|H']; [congruence|done]. }
  destruct answer as [n|e]; [|destruct (video c)].
  - split_and!; try done; [by left|].
    intros s trk H. cbn in H |- *.
    destruct (decide (size (streams w) = s)) as [->|Hne]; [by left|].
    right. rewrite lookup_insert_ne in H by done. by eapply Hold.
  - split_and!; try done; by right.
  - by split_and!.
Qed.

Lemma durationChange_wellFormed value w :
  wellFormed w → wellFormed (duration_onChange value w).
Proof. intros (A & C & D & E & F & U). by split_and!. Qed.

Lemma start_wellFormed w :
  wellFormed w → status w = ready →
  wellFormed (handleStartRecording w).
Proof.
  intros (A & C & D & E & F & U) Hst.
  destruct (mediaStream w) as [s|] eqn:Hs;
    [|unfold handleStartRecording; rewrite Hs; by split_and!].
  assert (Herr : error w = None).
  { destruct C as [C|[_ C]]; [done|congruence]. }
  rewrite (RecorderSpec.handleStart_eq w s Hs). cbn zeta.
  assert (Hgoal : ∀ w', videoSrcObject w' = None →
            error w' = None → streams w' = streams w →
            mediaStream w' = Some s → status w' = recording →
            mediaRecorderRef w' = Some (size (recorders w)) →
            recorders w' !! size (recorders w) = Some (mkRecorder s rs_recording) →
            elapsedTime w' = 0 →
            recordedVideoUrl w' = recordedVideoUrl w →
            objectURLs w' = objectURLs w → wellFormed w').
  { intros w' H1 H3 H4 H5 H6 H7 H8 H9 H10 H11. split_and!.
    - done.
    - by left.
    - intros s0 trk. rewrite H4, H5, <- Hs. apply D.
    - intros _. eexists _, _. split_and!; [done|done|done].
    - lia.
    - by rewrite H10, H11. }
  destruct (js_gt (duration w) (JNum 0));
    apply Hgoal; try done; cbn; apply lookup_insert_eq.
Qed.

Lemma newRecording_wellFormed w :
  wellFormed w → status w = finished → mediaStream w = None →
  wellFormed (handleNewRecording w).
Proof.
  intros (A & C & D & E & F & U) Hst Hnone.
  unfold handleNewRecording, revokeObjectURL.
  destruct (recordedVideoUrl w) as [url|]; [destruct (truthy url)|]; cbn;
    (split_and!; [done|by left|done|done|done|done]).
Qed.

Lemma sourceEnded_wellFormed r w :
  wellFormed w → wellFormed (recorder_sourceEnded gathered r w).
Proof.
  intros (A & C & D & E & F & U). unfold recorder_sourceEnded.
  destruct (recorders w !! r) as [[s st]|] eqn:Hm; [|by split_and!].
  assert (Hgoal : wellFormed
            (set_tasks (tasks w ++ [ev_dataavailable r (gathered r); ev_stop r])
               (set_recorders (<[r := mkRecorder s rs_inactive]> (recorders w))
                  (set_streams (alter (map (λ _, ended)) s (streams w)) w)))).
  { split_and!; try done.
    - intros s0 trk. cbn. intros H.
      destruct (decide (s = s0)) as [->|Hne].
      + right. rewrite lookup_alter_eq in H.
        destruct (streams w !! s0) as [trk0|]; [|done].
        injection H as <-. clear. induction trk0; by constructor.
      + rewrite lookup_alter_ne in H by done. by apply (D s0).
    - intros Hst. destruct (E Hst) as (r0 & m0 & E1 & E2 & E3). cbn.
      destruct (decide (r = r0)) as [->|Hne].
      + eexists r0, _. rewrite lookup_insert_eq. split_and!; [done|done|].
        rewrite Hm in E2. by injection E2 as <-.
      + exists r0, m0. by rewrite lookup_insert_ne. }
  destruct st; cbn; [by split_and!|exact Hgoal..].
Qed.

(** What [recorder.onstop] does to the state cells. *)
Lemma onstop_cells s w :
  let w' := recorder_onstop s w in
  status w' = finished ∧ mediaStream w' = None
  ∧ streams w' = alter (map (λ _, ended)) s (streams w)
  ∧ error w' = error w ∧ videoSrcObject w' = videoSrcObject w
  ∧ elapsedTime w' = elapsedTime w ∧ duration w' = duration w
  ∧ ∃ url, recordedVideoUrl w' = Some url
      ∧ is_Some (objectURLs w' !! url).
Proof.
  unfold recorder_onstop, createObjectURL, stopStopwatch. cbn.
  destruct (stopwatchRef w) eqn:Hsw; cbn;
    (split_and!; try done; eexists; split; [done|];
     rewrite lookup_insert_eq; by eexists).
Qed.

Lemma deliver_wellFormed w :
  Orderly w → wellFormed w → wellFormed (deliver w).
Proof.
  intros [_ _ _ O4 _ _] (A & C & D & E & F & U). unfold deliver.
  destruct O4 as [Hq|(Hst & r & m & Hr & Hm & Hi & [Hq|[data Hq]])];
    rewrite Hq; [by split_and!| |]; cbn [runTask].
  - change (recorders (set_tasks [] w)) with (recorders w). rewrite Hm.
    set (w0 := set_tasks [] w).
    destruct (onstop_cells (rec_stream m) w0)
      as (E1 & E2 & E3 & E4 & E5 & E6 & _ & url & E7 & E8).
    change (streams w0) with (streams w) in E3.
    change (error w0) with (error w) in E4.
    change (videoSrcObject w0) with (videoSrcObject w) in E5.
    change (elapsedTime w0) with (elapsedTime w) in E6.
    destruct (E Hst) as (r' & m' & E1' & E2' & E3').
    assert (Hs : mediaStream w = Some (rec_stream m)) by congruence.
    assert (Herr : error w = None).
    { destruct C as [C|[_ C]]; [done|congruence]. }
    split_and!.
    + congruence.
    + left. congruence.
    + intros s0 trk. rewrite E3. intros H. right.
      destruct (decide (rec_stream m = s0)) as [<-|Hne].
      * rewrite lookup_alter_eq in H.
        destruct (streams w !! rec_stream m) as [trk0|]; [|done].
        injection H as <-. clear. induction trk0; by constructor.
      * rewrite lookup_alter_ne in H by done.
        destruct (D s0 trk H) as [H'|H']; [congruence|done].
    + intros Hst'. congruence.
    + lia.
    + intros url' Hu. rewrite E7 in Hu. by injection Hu as <-.
  - unfold recorder_ondataavailable.
    destruct (blob_size data >? 0); by split_and!.
Qed.

(** Every world the component can be in is well formed. *)
Lemma reachable_wellFormed {typed : string → Prop} w :
  reachableWith gathered typed w → wellFormed w.
Proof.
  intros Hr. induction Hr as [|w Hr IH Hst|answer w Hr IH Hst|v w Hr IH Hst Hv
                  |w Hr IH Hst|w Hr IH Hst|w url Hr IH Hst Hu Ht
                  |r w Hr IH|w Hr IH|w Hr IH].
  - split_and!; [done|by left| |done|done|done].
    intros s trk H. cbn in H. by rewrite lookup_empty in H.
  - by apply begin_wellFormed.
  - apply settle_wellFormed; [done|done|].
    destruct (RecorderSpec.reachable_inv gathered w Hr) as (I1 & _).
    destruct (mediaStream w) eqn:E; [|done].
    destruct I1 as [I1|I1]; [by eexists|congruence..].
  - by apply durationChange_wellFormed.
  - by apply start_wellFormed.
  - eapply frames_wellFormed;
      [apply RecorderSpec.stop_sameSession|apply stop_sameRefs|done].
  - apply newRecording_wellFormed; [done|done|].
    destruct (RecorderSpec.reachable_inv gathered w Hr) as (I1 & _).
    destruct (mediaStream w) eqn:E; [|done].
    destruct I1 as [I1|I1]; [by eexists|congruence..].
  - by apply sourceEnded_wellFormed.
  - eapply frames_wellFormed;
      [apply RecorderSpec.elapse_sameSession|apply elapse_sameRefs|done].
  - apply deliver_wellFormed; [|done].
    by eapply RecorderSpec.reachable_Orderly.
Qed.



(** At most one timer of a kind whose pending timers all carry the
    remembered id. *)
Lemma one_remembered (p : Timer → bool) (ref : option positive) ts :
  NoDup (map t_id ts) →
  (∀ t, t ∈ ts → p t = true → ref = Some (t_id t)) →
  (length (List.filter p ts) ≤ 1)%nat.
Proof.
  induction ts as [|t ts IH]; intros Hnd Hp; [cbn; lia|].
  cbn in Hnd. apply NoDup_cons in Hnd as [Hin Hnd]. cbn.
  assert (IH' : (length (List.filter p ts) ≤ 1)%nat).
  { apply IH; [done|]. intros u Hu. apply Hp. by right. }
  destruct (p t) eqn:Hpt; [|done]. cbn.
  assert (Hnil : List.filter p ts = []).
  { destruct (List.filter p ts) as [|u us] eqn:Hf; [done|].
    assert (Hu : In u (List.filter p ts)) by (rewrite Hf; by left).
    apply filter_In in Hu as [Hu Hpu]. apply list_elem_of_In in Hu.
    assert (E1 : ref = Some (t_id t)) by (apply Hp; [by left|done]).
    assert (E2 : ref = Some (t_id u)) by (apply Hp; [by right|done]).
    exfalso. apply Hin. rewrite E1 in E2. injection E2 as ->.
    apply list_elem_of_In, in_map. by apply list_elem_of_In. }
  rewrite Hnil. cbn. lia.
Qed.

(** X3. The live preview never receives the stream: in every world the
    controls can produce, the [srcObject] of the preview element is unset,
    because the element is not in the document when the permission
    request settles. *)
Theorem preview_never_attached w :
  reachable gathered w → videoSrcObject w = None.
Proof. intros Hr. by destruct (reachable_wellFormed w Hr) as (A & _). Qed.


(** X5. The only message the component ever shows is the permission error,
    and only while it is [idle]: no error is left on screen once a stream
    was granted, during a recording or after it. *)
Theorem error_only_when_idle w :
  reachable gathered w →
  error w = None ∨ (error w = Some permissionError ∧ status w = idle).
Proof. intros Hr. by destruct (reachable_wellFormed w Hr) as (_ & C & _). Qed.

(** X6. Camera and microphone are held by at most one stream: in every
    world the controls can produce, each track of each stream the browser
    ever granted is ended, except those of the stream the component
    stores; when the component is [idle] or [finished] no track is live. *)
Theorem tracks_released w :
  reachable gathered w →
  tracksReleased w
  ∧ (status w = idle ∨ status w = finished →
     ∀ s trk, streams w !! s = Some trk → Forall (λ t, t = ended) trk).
Proof.
  intros Hr. destruct (reachable_wellFormed w Hr) as (_ & _ & D & _).
  split; [done|]. intros Hst s trk H.
  destruct (D s trk H) as [Hs|Hs]; [|done].
  destruct (RecorderSpec.reachable_inv gathered w Hr) as (I1 & _).
  destruct I1 as [I1|I1]; [by eexists|destruct Hst; congruence..].
Qed.

(** X7. At most one stopwatch interval is pending at any time, and only
    while the component is [recording]; recorder events are queued only
    while it is [recording]; and every other pending timer is a one-shot
    auto-stop.  (Auto-stops can outlive their recording: the one of a
    recording the browser ended is still pending afterwards.) *)
Theorem timers_bounded w :
  reachable gathered w →
  (length (stopwatchesPending w) ≤ 1)%nat
  ∧ (status w ≠ recording → stopwatchesPending w = [] ∧ tasks w = [])
  ∧ Forall (λ t, t_cb t = cb_autoStop → t_period t = None) (timers w).
Proof.
  intros Hr.
  pose proof (RecorderSpec.reachable_Orderly gathered w Hr) as O.
  pose proof O as [O1 O2 O3 O4 O5 O6].
  rewrite Forall_forall in O3. split_and!.
  - apply (one_remembered _ (stopwatchRef w)); [done|].
    intros t Ht Hp. specialize (O3 t Ht). cbn in O3.
    destruct (t_cb t); [done|]. by destruct O3 as (_ & _ & ->).
  - intros Hst.
    destruct (RecorderSpec.Orderly_not_recording w O Hst) as (Hq & Hk & _).
    split; [|done]. unfold stopwatchesPending.
    revert Hk. generalize (timers w) as ts. intros ts Hk.
    induction Hk as [|t ts [Ht _] _ IH]; [done|]. cbn. by rewrite Ht.
  - apply Forall_forall. intros t Ht Hcb. specialize (O3 t Ht). cbn in O3.
    by rewrite Hcb in O3.
Qed.

(** X8. What is on screen is determined by the status: Start Camera when
    [idle] (with the permission error under it, if any); the spinner
    alone, and no button, while the permission prompt is open; Start
    Recording when [ready]; Stop Recording with the running clock when
    [recording]; Record Another beside the player and Download when
    [finished].  Outside the permission prompt it is never a dead end:
    exactly one button that moves the lifecycle on is rendered. *)
Theorem view_by_status w :
  reachable gathered w →
  match status w with
  | idle =>
      view w
      = StartCameraButton
        :: match error w with Some e => [ErrorParagraph e] | None => [] end
  | permission_pending => view w = [PermissionSpinner]
  | ready => view w = [PreviewVideo; DurationInput (duration w);
                       StartRecordingButton]
  | recording =>
      view w = [PreviewVideo; RecordingBadge (formatTime (elapsedTime w));
                StopRecordingButton]
  | finished =>
      ∃ url, recordedVideoUrl w = Some url
             ∧ view w = [ResultVideo url; DownloadButton; RecordAnotherButton]
  end
  ∧ length (List.filter isAction (view w))
    = match status w with permission_pending => 0%nat | _ => 1%nat end.
Proof.
  intros Hr.
  destruct (reachable_wellFormed w Hr) as (_ & C & _).
  destruct (RecorderSpec.reachable_inv gathered w Hr) as (_ & I2 & I3).
  unfold view. destruct (status w) eqn:Hst; cbn.
  - destruct C as [->|[-> _]]; destruct (recordedVideoUrl w); by cbn.
  - destruct C as [->|[_ ?]]; [|congruence].
    destruct (recordedVideoUrl w); by cbn.
  - destruct C as [->|[_ ?]]; [|congruence].
    destruct (recordedVideoUrl w); by cbn.
  - destruct C as [->|[_ ?]]; [|congruence].
    destruct (recordedVideoUrl w); by cbn.
  - destruct C as [->|[_ ?]]; [|congruence].
    destruct (I3 eq_refl) as [url Hu]. rewrite Hu, (I2 url Hu). cbn.
    split; [by exists url|done].
Qed.

End Proofs.

(** *** The invariants at concrete worlds *)

Lemma sampleReady_reachable {typed : string → Prop} :
  reachableWith sampleData typed sampleReady.
Proof.
  unfold sampleReady.
  apply RecorderSpec.reachable_requestPermission; [apply reach_init|reflexivity].
Defined.

Lemma sampleStarted_reachable :
  reachable sampleData (handleStartRecording sampleReady).
Proof.
  apply reach_startRecording; [apply sampleReady_reachable|reflexivity].
Defined.

Lemma sampleDenied_reachable :
  reachable sampleData (handleRequestPermission denyAll init).
Proof.
  apply RecorderSpec.reachable_requestPermission; [apply reach_init|reflexivity].
Defined.

Lemma samplePending_reachable : reachable sampleData samplePending.
Proof. apply reach_requestPermission; [apply reach_init|reflexivity]. Defined.

Lemma sampleUnplugged_reachable : reachable sampleData sampleUnplugged.
Proof.
  unfold sampleUnplugged. do 2 apply reach_deliver.
  apply reach_sourceEnded. apply sampleStarted_reachable.
Defined.

(** X3 on the component holding a granted stream. *)
Lemma preview_never_attached_witness :
  reachable sampleData sampleReady
  ∧ mediaStream sampleReady = Some 0%nat
  ∧ videoSrcObject sampleReady = None.
Proof.
  assert (Hs : mediaStream sampleReady = Some 0%nat) by reflexivity.
  exact (conj sampleReady_reachable
           (conj Hs (preview_never_attached sampleData sampleReady
                       sampleReady_reachable))).
Defined.


(** X5 after a refused permission request. *)
Lemma error_only_when_idle_witness :
  reachable sampleData (handleRequestPermission denyAll init)
  ∧ (error (handleRequestPermission denyAll init) = None
     ∨ (error (handleRequestPermission denyAll init) = Some permissionError
        ∧ status (handleRequestPermission denyAll init) = idle)).
Proof.
  exact (conj sampleDenied_reachable
           (error_only_when_idle sampleData _ sampleDenied_reachable)).
Defined.

(** X6 on a finished recording. *)
Lemma tracks_released_witness :
  reachable sampleData sampleFinished
  ∧ status sampleFinished = finished
  ∧ streams sampleFinished !! 0%nat = Some (replicate 2 ended)
  ∧ tracksReleased sampleFinished
  ∧ Forall (λ t, t = ended) (replicate 2 ended).
Proof.
  assert (H1 : status sampleFinished = finished) by (vm_compute; reflexivity).
  assert (H2 : streams sampleFinished !! 0%nat = Some (replicate 2 ended))
    by (vm_compute; reflexivity).
  destruct (tracks_released sampleData sampleFinished
              RecorderSpec.sampleFinished_reachable) as (T & K).
  exact (conj RecorderSpec.sampleFinished_reachable
           (conj H1 (conj H2 (conj T (K (or_intror H1) _ _ H2))))).
Defined.

(** X7 on a recording the browser ended: its auto-stop is still pending,
    no stopwatch is. *)
Lemma timers_bounded_witness :
  reachable sampleData sampleUnplugged
  ∧ status sampleUnplugged ≠ recording
  ∧ timers sampleUnplugged = [autoStopTimer 2 60000]
  ∧ stopwatchesPending sampleUnplugged = []
  ∧ tasks sampleUnplugged = [].
Proof.
  assert (H1 : status sampleUnplugged ≠ recording)
    by (vm_compute; discriminate).
  assert (H2 : timers sampleUnplugged = [autoStopTimer 2 60000])
    by (vm_compute; reflexivity).
  destruct (timers_bounded sampleData sampleUnplugged
              sampleUnplugged_reachable) as (_ & K & _).
  destruct (K H1) as (E1 & E2).
  exact (conj sampleUnplugged_reachable (conj H1 (conj H2 (conj E1 E2)))).
Defined.

(** X8 while the permission prompt is open. *)
Lemma view_by_status_witness :
  reachable sampleData samplePending
  ∧ status samplePending = permission_pending
  ∧ length (List.filter isAction (view samplePending)) = 0%nat.
Proof.
  assert (H1 : status samplePending = permission_pending) by reflexivity.
  exact (conj samplePending_reachable
           (conj H1 (proj2 (view_by_status sampleData samplePending
                              samplePending_reachable)))).
Defined.

End RecorderMoreSpec.


Module RecorderRunSpec.

Import Recorder RecorderView.

Section Proofs.

Variable gathered : nat → Blob.

(** *** What a recording leaves in the counter and in the artifact *)










Lemma advance_finalized_frame n w r s st0 u0 :
  Finalized r s st0 u0 w →
  elapsedTime (advance gathered n w) = elapsedTime w
  ∧ recordedVideoUrl (advance gathered n w) = recordedVideoUrl w
  ∧ objectURLs (advance gathered n w) = objectURLs w.
Proof.
  revert w. induction n as [|n IH]; intros w F; [done|]. cbn [advance].
  destruct (RecorderSpec.tick_finalized gathered w r s st0 u0 F) as (F' & _).
  destruct (IH _ F') as (E1 & E2 & E3).
  destruct F as [_ _ _ _ Fq _ _].
  rewrite E1, E2, E3, (RecorderSpec.tick_quiescent gathered w Fq). done.
Qed.



Lemma onstop_blob s w :
  ∃ url, recordedVideoUrl (recorder_onstop s w) = Some url
    ∧ objectURLs (recorder_onstop s w) !! url
      = Some (new_Blob (recordedChunksRef w) "video/webm").
Proof.
  unfold recorder_onstop, createObjectURL, stopStopwatch. cbn.
  destruct (stopwatchRef w); cbn;
    (eexists; split; [reflexivity|]); apply lookup_insert_eq.
Qed.

(** Stopping an active recorder and delivering its two events stores a
    locator for the fragments collected so far followed by the final one. *)
Lemma stop_deliver_blob w r s :
  mediaRecorderRef w = Some r →
  recorders w !! r = Some (mkRecorder s rs_recording) →
  tasks w = [] →
  ∃ url,
    recordedVideoUrl (runTasks (handleStopRecording gathered w)) = Some url
    ∧ objectURLs (runTasks (handleStopRecording gathered w)) !! url
      = Some (artifactOf (recordedChunksRef w) (gathered r)).
Proof.
  intros Hr Hm Hq.
  pose proof (RecorderSpec.handleStop_capturing gathered w r s Hr Hm) as E.
  cbn zeta in E. rewrite Hq in E.
  set (w1 := handleStopRecording gathered w) in *.
  assert (Htasks : tasks w1 = [ev_dataavailable r (gathered r); ev_stop r])
    by (rewrite E; by destruct (timerRef w)).
  unfold runTasks. rewrite Htasks. cbn [fold_left runTask].
  set (w3 := recorder_ondataavailable _ _).
  assert (H3 : recorders w3 !! r = Some (mkRecorder s rs_inactive)
               ∧ new_Blob (recordedChunksRef w3) "video/webm"
                 = artifactOf (recordedChunksRef w) (gathered r)).
  { subst w3. rewrite E. unfold recorder_ondataavailable, artifactOf.
    destruct (blob_size (gathered r) >? 0); destruct (timerRef w); cbn;
      rewrite lookup_insert_eq, ?app_nil_r; done. }
  destruct H3 as [-> <-]. cbn [rec_stream]. apply onstop_blob.
Qed.

Lemma capture_stop_blob ms w r s sw auto :
  Capturing r s sw auto w →
  let wF := runTasks (handleStopRecording gathered (advance gathered ms w)) in
  ∃ url, recordedVideoUrl wF = Some url
    ∧ objectURLs wF !! url
      = Some (artifactOf (recordedChunksRef w) (gathered r)).
Proof.
  revert w. induction ms as [|ms IH]; intros w Hc; cbn [advance].
  - destruct Hc as [_ _ Hr Hm Hq _ _ _]. by apply (stop_deliver_blob w r s).
  - assert (Hcase :
      (∃ T D, auto = Some (T, D) ∧ D ≤ now w + 1)
      ∨ match auto with Some (_, D) => now w + 1 < D | None => True end).
    { destruct auto as [[T D]|]; [|by right].
      destruct (Z.le_gt_cases D (now w + 1));
        [left; by eexists _, _|right; lia]. }
    destruct Hcase as [(T & D & -> & Heq)|Hnd].
    + destruct (RecorderSpec.tick_autostop gathered w r s sw T D Hc Heq)
        as (F & _).
      destruct (RecorderSpec.elapse_autostop gathered w r s sw T D Hc Heq)
        as (w1 & E & Hr1 & Hm1 & Hq1 & _).
      destruct (stop_deliver_blob w1 r s Hr1 Hm1 Hq1) as (url & U1 & U2).
      assert (Hch : recordedChunksRef w1 = recordedChunksRef w).
      { destruct (RecorderSpec.stop_sameSession gathered w1)
          as (_ & _ & _ & _ & _ & _ & _ & _ & S1).
        destruct (RecorderSpec.elapse_sameSession gathered w)
          as (_ & _ & _ & _ & _ & _ & _ & _ & S2).
        rewrite <- S1, <- E. exact S2. }
      rewrite Hch in U2. rewrite <- E in U1, U2.
      fold (tick gathered w) in U1, U2.
      destruct (advance_finalized_frame ms _ _ _ _ _ F) as (_ & A1 & A2).
      destruct (RecorderSpec.advance_finalized gathered ms _ _ _ _ _ F)
        as (F' & _).
      cbn zeta.
      rewrite (RecorderSpec.stop_not_capturing gathered _
                 (RecorderSpec.Finalized_not_capturing _ _ _ _ _ F')).
      destruct F' as [_ _ _ _ [_ Fq] _ _].
      rewrite (RecorderSpec.runTasks_nil _ Fq).
      exists url. cbn. by rewrite A1, A2.
    + destruct (RecorderSpec.tick_capturing gathered w r s sw auto Hc Hnd)
        as (Hc' & (_ & _ & _ & _ & _ & _ & _ & _ & Hch) & _).
      rewrite <- Hch. by apply IH.
Qed.

Lemma durationEdits_recorders edits w :
  recorders (fold_left (λ w v, duration_onChange v w) edits w) = recorders w.
Proof.
  revert w. induction edits as [|v edits IH]; intros w; [done|].
  cbn [fold_left]. by rewrite IH.
Qed.

(** X11. The artifact of a recording session holds exactly the bytes the
    recorder delivered with its final event, labelled [video/webm]: nothing
    of the fragments an earlier session left in the list is included, and
    an empty delivery gives an empty artifact. *)
Theorem artifact_is_captured_data (gum : MediaStreamConstraints → GumResult)
    (n : nat) (edits : list string) (ms : nat) (w0 : World) :
  quiescent w0 → permitted gum n →
  let wF := recordingSession gathered gum edits ms w0 in
  ∃ url, recordedVideoUrl wF = Some url
    ∧ objectURLs wF !! url
      = Some (mkBlob (blob_bytes (gathered (size (recorders w0))))
                "video/webm").
Proof.
  intros Hq Hp wF. subst wF. unfold recordingSession.
  destruct (RecorderSpec.requestPermission_granted gum n w0 Hp)
    as (P1 & P2 & P3 & P4 & P5 & P6).
  assert (P7 : recorders (handleRequestPermission gum w0) = recorders w0).
  { unfold handleRequestPermission, getUserMedia, permissionGranted. cbn.
    destruct (gum _); cbn; [done|]. by destruct (gum _). }
  set (w1 := handleRequestPermission gum w0) in *.
  destruct (RecorderSpec.durationEdits_frame edits w1)
    as (D1 & D2 & D3 & D4 & D5 & D6).
  pose proof (durationEdits_recorders edits w1) as D7.
  set (w2 := fold_left _ edits w1) in *.
  assert (Hs2 : mediaStream w2 = Some (size (streams w0))) by congruence.
  assert (Hq2 : quiescent w2) by (destruct Hq; split; congruence).
  destruct (RecorderSpec.start_Capturing w2 _ Hs2 Hq2) as (Hc & _).
  assert (Hch : recordedChunksRef (handleStartRecording w2) = []).
  { rewrite (RecorderSpec.handleStart_eq w2 _ Hs2). cbn zeta.
    by destruct (js_gt (duration w2) (JNum 0)). }
  destruct (capture_stop_blob ms _ _ _ _ _ Hc) as (url & U1 & U2).
  exists url. split; [done|]. rewrite U2, Hch, D7, P7. f_equal.
  unfold artifactOf, new_Blob, blob_size. cbn.
  destruct (Z.gtb_spec (Z.of_nat (length (blob_bytes (gathered (size (recorders w0)))))) 0)
    as [Hpos|Hz]; cbn.
  - by rewrite app_nil_r.
  - destruct (blob_bytes (gathered (size (recorders w0)))); [done|].
    cbn in Hz. lia.
Qed.

End Proofs.



(** X11 on a session that was granted the fallback camera. *)
Lemma artifact_is_captured_data_witness :
  quiescent init ∧ permitted rearMissing 2
  ∧ ∃ url,
      recordedVideoUrl
        (recordingSession sampleData rearMissing ["0"; "3"] 1500 init)
      = Some url
      ∧ objectURLs
          (recordingSession sampleData rearMissing ["0"; "3"] 1500 init)
        !! url
        = Some (mkBlob (blob_bytes (sampleData 0%nat)) "video/webm").
Proof.
  assert (Hq : quiescent init) by (split; reflexivity).
  assert (Hp : permitted rearMissing 2).
  { right. split; [eexists; reflexivity|reflexivity]. }
  exact (conj Hq (conj Hp
           (artifact_is_captured_data sampleData rearMissing 2 ["0"; "3"]
              1500 init Hq Hp))).
Defined.

End RecorderRunSpec.


(** ** Download, the duration field and the badge *)

Module RecorderControlsSpec.

Import Recorder RecorderView JsMoreFacts.

Section Proofs.

Variable gathered : nat → Blob.

(** Removing the node that was just appended gives the children back. *)
Lemma removeChild_appended (children : list nat) (a : nat) :
  a ∉ children →
  List.filter (λ n, negb (Nat.eqb n a)) (children ++ [a]) = children.
Proof.
  induction children as [|c children IH]; intros Ha; cbn.
  - by rewrite Nat.eqb_refl.
  - apply not_elem_of_cons in Ha as [Hc Ha].
    destruct (Nat.eqb_spec c a) as [->|_]; [done|]. cbn. by rewrite IH.
Qed.

(** X12. Download on a finished recording saves exactly one file: the
    locator handed to the browser is the stored one, it is still live, the
    file is named [recording-<ISO time>.webm], and the temporary anchor is
    gone from the document afterwards. *)
Theorem download_saves_recording (isoNow : string) (w : World)
    (doc : Document) :
  reachable gathered w → status w = finished → nextNode doc ∉ body doc →
  ∃ url, recordedVideoUrl w = Some url
    ∧ is_Some (objectURLs w !! url)
    ∧ saves (handleDownload isoNow w doc)
      = saves doc ++ [(url, "recording-" +:+ isoNow +:+ ".webm")]
    ∧ body (handleDownload isoNow w doc) = body doc.
Proof.
  intros Hr Hst Hfresh.
  destruct (RecorderSpec.reachable_inv gathered w Hr) as (_ & I2 & I3).
  destruct (RecorderMoreSpec.reachable_wellFormed gathered w Hr)
    as (_ & _ & _ & _ & _ & U).
  destruct (I3 Hst) as [url Hu]. exists url.
  split; [done|]. split; [by apply U|].
  unfold handleDownload. rewrite Hu, (I2 url Hu). cbn.
  split; [done|]. by apply removeChild_appended.
Qed.

(** X13. The duration field reads a decimal literal: typing the decimal
    form of a safe integer [n] (at most [2^53 - 1] in size, so that the
    number read is [n] itself), followed by anything that does not begin
    with a digit, stores [n] when it is at least 1 and 1 otherwise. *)
Theorem duration_reads_literal (n : Z) (rest : string) (w : World) :
  isSafeInteger n = true → stops rest →
  duration (duration_onChange (toString n +:+ rest) w) = JNum (Z.max 1 n).
Proof.
  intros _ Hrest. unfold duration_onChange. cbn.
  by rewrite (parseInt_toString n rest Hrest).
Qed.

(** X20. The badge never shows a malformed time: in every world the
    controls can produce the counter is not negative, so the text on the
    badge is [MM:SS] with a seconds field of two characters, and it reads
    back as the counter's minutes and seconds. *)
Theorem badge_time_well_formed (w : World) :
  reachable gathered w →
  0 ≤ elapsedTime w
  ∧ ∃ mm ss,
      formatTime (elapsedTime w) = mm +:+ ":" +:+ ss
      ∧ String.length ss = 2%nat
      ∧ parseInt mm = JNum (elapsedTime w / 60)
      ∧ parseInt ss = JNum (elapsedTime w mod 60).
Proof.
  intros Hr.
  destruct (RecorderMoreSpec.reachable_wellFormed gathered w Hr)
    as (_ & _ & _ & _ & E & _).
  split; [done|].
  destruct (ViewSpec.formatTime_fields (elapsedTime w) E)
    as (mm & ss & F1 & _ & F2 & F3 & F4 & _).
  by exists mm, ss.
Qed.

End Proofs.

(** X20 on a recording stopped by hand. *)
Lemma badge_time_well_formed_witness :
  reachable sampleData sampleFinished
  ∧ 0 ≤ elapsedTime sampleFinished
  ∧ ∃ mm ss,
      formatTime (elapsedTime sampleFinished) = mm +:+ ":" +:+ ss
      ∧ String.length ss = 2%nat
      ∧ parseInt mm = JNum (elapsedTime sampleFinished / 60)
      ∧ parseInt ss = JNum (elapsedTime sampleFinished mod 60).
Proof.
  exact (conj RecorderSpec.sampleFinished_reachable
           (badge_time_well_formed sampleData sampleFinished
              RecorderSpec.sampleFinished_reachable)).
Defined.

(** X12 on a finished recording and a page with two elements. *)
Lemma download_saves_recording_witness :
  reachable sampleData sampleFinished ∧ status sampleFinished = finished
  ∧ (9%nat ∉ [7%nat; 8%nat])
  ∧ ∃ url, recordedVideoUrl sampleFinished = Some url
      ∧ is_Some (objectURLs sampleFinished !! url)
      ∧ saves (handleDownload "2024-05-01T10:00:00.000Z" sampleFinished
                 (mkDocument [7%nat; 8%nat] 9 []))
        = [(url, "recording-" +:+ "2024-05-01T10:00:00.000Z" +:+ ".webm")]
      ∧ body (handleDownload "2024-05-01T10:00:00.000Z" sampleFinished
                (mkDocument [7%nat; 8%nat] 9 []))
        = [7%nat; 8%nat].
Proof.
  assert (H1 : status sampleFinished = finished) by (vm_compute; reflexivity).
  assert (H2 : 9%nat ∉ [7%nat; 8%nat]).
  { apply (bool_decide_unpack _). vm_compute. exact I. }
  exact (conj RecorderSpec.sampleFinished_reachable (conj H1 (conj H2
           (download_saves_recording sampleData "2024-05-01T10:00:00.000Z"
              sampleFinished (mkDocument [7%nat; 8%nat] 9 [])
              RecorderSpec.sampleFinished_reachable H1 H2)))).
Defined.

(** X13 on a fractional and on a negative entry. *)
Lemma duration_reads_literal_witness :
  isSafeInteger 90 = true ∧ isSafeInteger (-3) = true ∧ stops ".5"
  ∧ duration (duration_onChange (toString 90 +:+ ".5") sampleReady) = JNum 90
  ∧ duration (duration_onChange (toString (-3) +:+ ".5") sampleReady)
    = JNum 1.
Proof.
  assert (H1 : isSafeInteger 90 = true) by reflexivity.
  assert (H2 : isSafeInteger (-3) = true) by reflexivity.
  assert (H : stops ".5") by reflexivity.
  exact (conj H1 (conj H2 (conj H
           (conj (duration_reads_literal 90 ".5" sampleReady H1 H)
              (duration_reads_literal (-3) ".5" sampleReady H2 H))))).
Defined.

End RecorderControlsSpec.

(** ** The analyzer widget under any sequence of events *)

Module AnalyzerRunSpec.

Import Gemini Analyzer AnalyzerEvents JsMoreFacts.

Lemma locator_inj (n m : nat) : locator n = locator m → n = m.
Proof.
  unfold locator. intros H.
  change ("blob:" +:+ pretty n)
    with (String "b" (String "l" (String "o" (String "b" (String ":" (pretty n))))))
    in H.
  change ("blob:" +:+ pretty m)
    with (String "b" (String "l" (String "o" (String "b" (String ":" (pretty m))))))
    in H.
  injection H as H. by apply (inj pretty) in H.
Qed.

(** Rendering keeps every live locator and its bytes. *)
Lemma render_keeps (w : World) (url : string) (b : Blob) :
  minted w → objectURLs w !! url = Some b →
  objectURLs (render w) !! url = Some b.
Proof.
  intros Hm Hu. unfold render.
  destruct (sameFile (file w) (previewDep w)); [done|].
  destruct (file w) as [f|]; [|done]. cbn.
  rewrite lookup_insert_ne; [done|]. intros <-.
  destruct (Hm _ (mk_is_Some _ _ Hu)) as (n & Hn & Heq).
  apply locator_inj in Heq. lia.
Qed.

Lemma render_minted (w : World) : minted w → minted (render w).
Proof.
  intros Hm. unfold render.
  destruct (sameFile (file w) (previewDep w)); [done|].
  destruct (file w) as [f|]; [|done]. intros url. cbn.
  destruct (decide (url = locator (nextBlobId w))) as [->|Hne].
  - intros _. exists (nextBlobId w). split; [lia|done].
  - rewrite lookup_insert_ne; [|done]. intros H.
    destruct (Hm _ H) as (n & Hn & ->). exists n. split; [lia|done].
Qed.

(** Each event is a render of the store it found, or nothing at all. *)
Lemma step_render (w : World) (e : Event) :
  step w e = w
  ∨ ∃ w0, step w e = render w0 ∧ objectURLs w0 = objectURLs w
         ∧ nextBlobId w0 = nextBlobId w ∧ previewDep w0 = previewDep w
         ∧ previewUrl w0 = previewUrl w.
Proof.
  destruct e as [[f|]| |[r|err]|]; cbn.
  - right. by eexists.
  - by left.
  - destruct (file w); [right; by eexists|by left].
  - right. by eexists.
  - right. by eexists.
  - right. unfold handleClear. cbn zeta. eexists. split; [done|].
    cbn. by destruct (fileInput w).
Qed.

Lemma step_minted (w : World) (e : Event) : minted w → minted (step w e).
Proof.
  intros Hm. destruct (step_render w e) as [->|(w0 & -> & E1 & E2 & _)];
    [done|].
  apply render_minted. unfold minted. by rewrite E1, E2.
Qed.

Lemma step_keeps (w : World) (e : Event) (url : string) (b : Blob) :
  minted w → objectURLs w !! url = Some b →
  objectURLs (step w e) !! url = Some b.
Proof.
  intros Hm Hu. destruct (step_render w e) as [->|(w0 & -> & E1 & E2 & _)];
    [done|].
  apply render_keeps; [|by rewrite E1]. unfold minted. by rewrite E1, E2.
Qed.

Lemma run_minted (events : list Event) (w : World) :
  minted w → minted (run events w).
Proof.
  revert w. induction events as [|e events IH]; intros w Hm; [done|].
  cbn. apply IH. by apply step_minted.
Qed.

Lemma run_keeps (events : list Event) (w : World) (url : string) (b : Blob) :
  minted w → objectURLs w !! url = Some b →
  objectURLs (run events w) !! url = Some b.
Proof.
  revert w. induction events as [|e events IH]; intros w Hm Hu; [done|].
  cbn. apply IH; [by apply step_minted|by apply step_keeps].
Qed.

Lemma init_minted : minted init.
Proof. intros url [b Hb]. cbn in Hb. by rewrite lookup_empty in Hb. Qed.

(** X14. The widget never releases a locator: whatever the user does -
    selecting files, analysing, clearing, with answers arriving at any
    time - a locator that was created stays live and keeps resolving to
    the same bytes. *)
Theorem locators_never_released (before after : list Event) (url : string)
    (b : Blob) :
  objectURLs (run before init) !! url = Some b →
  objectURLs (run (before ++ after) init) !! url = Some b.
Proof.
  intros Hu. unfold run. rewrite fold_left_app.
  apply run_keeps; [|done]. apply run_minted, init_minted.
Qed.

(** Rendering makes the memo cell agree with the state when the cell was
    sound before. *)
Lemma render_consistent (w : World) :
  memoSound w → previewConsistent (render w).
Proof.
  unfold memoSound, previewConsistent, render.
  destruct (sameFile (file w) (previewDep w)) eqn:Hs.
  - destruct (file w) as [f|], (previewDep w) as [g|]; try done; cbn.
    cbn in Hs. apply Nat.eqb_eq in Hs.
    intros (url & H1 & H2). by exists g, url.
  - destruct (file w) as [f|]; cbn.
    + intros _. eexists f, _. split_and!; [done..|].
      by rewrite lookup_insert_eq.
    + done.
Qed.

Lemma consistent_memoSound (w : World) : previewConsistent w → memoSound w.
Proof.
  unfold previewConsistent, memoSound. destruct (file w) as [f|].
  - intros (g & url & -> & _ & H1 & H2). by exists url.
  - by intros [-> ->].
Qed.

Lemma step_consistent (w : World) (e : Event) :
  previewConsistent w → previewConsistent (step w e).
Proof.
  intros Hc. destruct (step_render w e) as [->|(w0 & -> & E1 & E2 & E3 & E4)];
    [done|].
  apply render_consistent. apply consistent_memoSound in Hc.
  unfold memoSound in *. by rewrite E1, E3, E4.
Qed.

(** X15. The preview always shows the selected file: after any sequence
    of events the memoised locator was created for a file object with the
    identity of the selected one and resolves to its bytes, and no preview
    is held when no file is selected. *)
Theorem preview_shows_selected_file (events : list Event) :
  previewConsistent (run events init).
Proof.
  assert (H : ∀ w, previewConsistent w → previewConsistent (run events w)).
  { induction events as [|e events IH]; intros w Hw; [done|].
    cbn. apply IH. by apply step_consistent. }
  by apply H.
Qed.

(** X16. Re-rendering is free: a second render of the same state creates
    no locator and changes nothing. *)
Theorem render_idempotent (w : World) : render (render w) = render w.
Proof.
  remember (render w) as w1 eqn:E. unfold render in E.
  destruct (sameFile (file w) (previewDep w)) eqn:Hs.
  - subst w1. unfold render. cbn. rewrite Hs. by destruct (file w).
  - destruct (file w) as [f|] eqn:Hf; subst w1; unfold render; cbn.
    + by rewrite Nat.eqb_refl.
    + done.
Qed.

(** Analyze in one piece is the click followed at once by the answer. *)
Lemma handleAnalyze_run (client : File → JsResult string) (f : File)
    (w : World) :
  file w = Some f →
  handleAnalyze client w = run [on_analyze; on_answer (client f)] w.
Proof.
  intros Hf. unfold handleAnalyze, run. cbn [fold_left step].
  unfold analyzeSettled, analyzeStarted. rewrite Hf.
  destruct (client f); reflexivity.
Qed.

Lemma apiError_not_unknown (cause : string) :
  apiErrorPrefix +:+ cause ≠ "An unknown error occurred.".
Proof.
  unfold apiErrorPrefix.
  change ("An error occurred while communicating with the API: " +:+ cause)
    with (String "A" (String "n" (String " " (String "e"
            ("rror occurred while communicating with the API: " +:+ cause))))).
  congruence.
Qed.

Section Client.

Variable readAsDataURL : File → JsResult string.
Variable generateContent : GenerateContentRequest → JsResult string.

(** X17. Analyze with the real client, the answer arriving before any
    other event: a description is shown as it is in state [success]; any
    failure ends in state [error] with the result cleared, and a failure
    that is not an [Error] - the reader's error event, say - shows the
    client's fixed message.  The widget is never left [loading], the
    selected file stays, and the widget's own fallback text can never
    appear, because the client only ever throws an [Error]. *)
Theorem analyze_outcome (f : File) (w : World) :
  file w = Some f →
  let w' :=
    handleAnalyze (analyzeImageWithGemini readAsDataURL generateContent) w in
  match requestDescription readAsDataURL generateContent f with
  | js_return text =>
      status w' = success ∧ result w' = text ∧ errorText w' = EmptyString
  | js_throw e =>
      status w' = error ∧ result w' = EmptyString
      ∧ clientMessage (errorText w')
      ∧ (e = js_other → errorText w' = unexpectedMessage)
  end
  ∧ errorText w' ≠ "An unknown error occurred."
  ∧ status w' ≠ loading
  ∧ file w' = Some f.
Proof.
  intros Hf w'. subst w'. unfold handleAnalyze. rewrite Hf. cbn zeta.
  set (w1 := render (setCells (Some f) loading EmptyString EmptyString w)).
  destruct (AnalyzerSpec.render_cells
              (setCells (Some f) loading EmptyString EmptyString w))
    as (A1 & A2 & A3 & A4).
  fold w1 in A1, A2, A3, A4. cbn in A1, A2, A3, A4.
  unfold analyzeImageWithGemini.
  destruct (requestDescription readAsDataURL generateContent f)
    as [text|[m|]].
  - destruct (AnalyzerSpec.render_cells
                (setCells (file w1) success text (errorText w1) w1))
      as (B1 & B2 & B3 & B4).
    rewrite B1, B2, B3, B4. cbn. rewrite A1, A4. by split_and!.
  - destruct (includes m "API key not valid") eqn:Hk.
    + destruct (AnalyzerSpec.render_cells
                  (setCells (file w1) error (result w1) invalidKeyMessage w1))
        as (B1 & B2 & B3 & B4).
      rewrite B1, B2, B3, B4. cbn. rewrite A1, A3.
      split_and!; [done|done|by left|done|done|done|done].
    + destruct (AnalyzerSpec.render_cells
                  (setCells (file w1) error (result w1)
                     (apiErrorPrefix +:+ m) w1))
        as (B1 & B2 & B3 & B4).
      rewrite B1, B2, B3, B4. cbn. rewrite A1, A3.
      split_and!; [done|done| |done|apply apiError_not_unknown|done|done].
      right; right. by exists m.
  - destruct (AnalyzerSpec.render_cells
                (setCells (file w1) error (result w1) unexpectedMessage w1))
      as (B1 & B2 & B3 & B4).
    rewrite B1, B2, B3, B4. cbn. rewrite A1, A3.
    split_and!; [done|done|by right; left|done|done|done|done].
Qed.

End Client.

(** X14: the first file's locator outlives a clear, a second file and an
    analysis. *)
Lemma locators_never_released_witness :
  objectURLs (run [on_fileChange (Some sampleFile)] init) !! "blob:0"
  = Some (file_blob sampleFile)
  ∧ objectURLs
      (run ([on_fileChange (Some sampleFile)]
            ++ [on_clear;
                on_fileChange (Some (mkFile 1 "image/jpeg" (mkBlob [] "image/jpeg")));
                on_analyze; on_answer (js_return "A cat on a chair.")])
         init) !! "blob:0"
    = Some (file_blob sampleFile).
Proof.
  assert (H : objectURLs (run [on_fileChange (Some sampleFile)] init)
              !! "blob:0" = Some (file_blob sampleFile))
    by (vm_compute; reflexivity).
  exact (conj H (locators_never_released _ _ _ _ H)).
Defined.

(** X17 with a reader that fails: the reader's error event is not an
    [Error]. *)
Lemma analyze_outcome_witness :
  file sampleSelected = Some sampleFile
  ∧ let w' :=
      handleAnalyze
        (analyzeImageWithGemini (λ _, js_throw js_other) invalidKeyEndpoint)
        sampleSelected in
    status w' = error ∧ errorText w' = unexpectedMessage
    ∧ file w' = Some sampleFile.
Proof.
  assert (Hf : file sampleSelected = Some sampleFile) by reflexivity.
  destruct (analyze_outcome (λ _, js_throw js_other) invalidKeyEndpoint
              sampleFile sampleSelected Hf) as (H & _ & _ & F).
  destruct H as (E1 & _ & _ & E2).
  exact (conj Hf (conj E1 (conj (E2 eq_refl) F))).
Defined.

End AnalyzerRunSpec.

(** ** The data URL handed to the model *)

Module DataUrlSpec.

Import Gemini Analyzer DataUrl JsMoreFacts.

Lemma rev_app_append (s t : string) :
  String.rev_app s t = String.rev s +:+ t.
Proof.
  unfold String.rev. revert t.
  induction s as [|c s IH]; intros t; cbn; [done|].
  rewrite (IH (String c t)), (IH (String c EmptyString)).
  by rewrite append_assoc.
Qed.

Lemma rev_String (c : ascii) (s : string) :
  String.rev (String c s) = String.rev s +:+ String c EmptyString.
Proof. unfold String.rev at 1. cbn. apply rev_app_append. Qed.

Lemma splitComma_cons (cur s : string) :
  ∃ piece pieces, splitComma cur s = piece :: pieces.
Proof.
  revert cur. induction s as [|c s IH]; intros cur; cbn; [by eexists _, _|].
  destruct (Ascii.eqb c ","); [by eexists _, _|apply IH].
Qed.

Lemma joinComma_cons (piece cur s : string) :
  joinComma (piece :: splitComma cur s)
  = piece +:+ "," +:+ joinComma (splitComma cur s).
Proof.
  destruct (splitComma_cons cur s) as (p & ps & ->). reflexivity.
Qed.

Lemma joinComma_splitComma (cur s : string) :
  joinComma (splitComma cur s) = String.rev cur +:+ s.
Proof.
  revert cur. induction s as [|c s IH]; intros cur; cbn.
  - by rewrite ViewSpec.append_nil_r.
  - destruct (Ascii.eqb_spec c ",") as [->|_].
    + rewrite joinComma_cons, IH. reflexivity.
    + by rewrite IH, rev_String, append_assoc.
Qed.

Lemma noComma_app (s t : string) :
  noComma s = true → noComma t = true → noComma (s +:+ t) = true.
Proof.
  induction s as [|c s IH]; [done|]. intros H Ht. cbn in H.
  apply andb_prop in H as [Hc Hs].
  rewrite append_cons. cbn. by rewrite Hc, IH.
Qed.

Lemma noComma_rev (s : string) :
  noComma s = true → noComma (String.rev s) = true.
Proof.
  induction s as [|c s IH]; [done|]. intros H. cbn in H.
  apply andb_prop in H as [Hc Hs].
  rewrite rev_String. apply noComma_app; [by apply IH|]. cbn. by rewrite Hc.
Qed.

Lemma splitComma_pieces (cur s : string) :
  noComma cur = true → forallb noComma (splitComma cur s) = true.
Proof.
  revert cur. induction s as [|c s IH]; intros cur Hcur; cbn.
  - by rewrite noComma_rev.
  - destruct (Ascii.eqb c ",") eqn:Hc; cbn.
    + rewrite noComma_rev; [|done]. by apply IH.
    + apply IH. cbn. by rewrite Hc.
Qed.

Lemma splitComma_noComma (cur s : string) :
  noComma s = true → splitComma cur s = [String.rev cur +:+ s].
Proof.
  revert cur. induction s as [|c s IH]; intros cur; cbn.
  - by rewrite ViewSpec.append_nil_r.
  - destruct (Ascii.eqb c ","); [done|]. cbn. intros Hs.
    by rewrite (IH _ Hs), rev_String, append_assoc.
Qed.

Lemma splitComma_header (cur header rest : string) :
  noComma header = true →
  splitComma cur (header +:+ String "," rest)
  = (String.rev cur +:+ header) :: splitComma EmptyString rest.
Proof.
  revert cur. induction header as [|c h IH]; intros cur; cbn.
  - intros _. by rewrite ViewSpec.append_nil_r.
  - rewrite append_cons. cbn. destruct (Ascii.eqb c ","); [done|]. cbn.
    intros Hh. by rewrite (IH _ Hh), rev_String, append_assoc.
Qed.

(** X18. [split(',')] loses nothing: joining the pieces with commas gives
    the string back, and no piece holds a comma. *)
Theorem splitComma_joins_back (s : string) :
  joinComma (splitComma EmptyString s) = s
  ∧ forallb noComma (splitComma EmptyString s) = true.
Proof.
  split; [apply joinComma_splitComma|by apply splitComma_pieces].
Qed.

Section Client.

Variable readAsDataURL : File → JsResult string.

(** X19. [fileToBase64] hands over the payload of a data URL: for a URL
    [header,payload] with no further comma the promise resolves to
    [payload]; for a URL without a comma it still resolves, to
    [undefined]; and it rejects exactly when the reader fails, with what
    the reader reported. *)
Theorem fileToBase64_payload (f : File) :
  (∀ header payload,
     readAsDataURL f = js_return (header +:+ "," +:+ payload) →
     noComma header = true → noComma payload = true →
     fileToBase64 readAsDataURL f = js_return (Some payload))
  ∧ (∀ url, readAsDataURL f = js_return url → noComma url = true →
       fileToBase64 readAsDataURL f = js_return None)
  ∧ (∀ e, fileToBase64 readAsDataURL f = js_throw e
          ↔ readAsDataURL f = js_throw e).
Proof.
  unfold fileToBase64. split_and!.
  - intros header payload -> Hh Hp. cbn [js_bind].
    change ("," +:+ payload) with (String "," payload).
    rewrite (splitComma_header _ _ _ Hh), (splitComma_noComma _ _ Hp).
    reflexivity.
  - intros url -> Hu. cbn [js_bind].
    by rewrite (splitComma_noComma _ _ Hu).
  - intros e. destruct (readAsDataURL f); cbn [js_bind]; split; congruence.
Qed.

End Client.

(** X19 on the sample reader's data URL, and on a reader that fails. *)
Lemma fileToBase64_payload_witness :
  sampleReader sampleFile
  = js_return ("data:image/png;base64" +:+ "," +:+ "iVBORw0KGgo=")
  ∧ noComma "data:image/png;base64" = true
  ∧ noComma "iVBORw0KGgo=" = true
  ∧ fileToBase64 sampleReader sampleFile = js_return (Some "iVBORw0KGgo=").
Proof.
  assert (H1 : sampleReader sampleFile
               = js_return ("data:image/png;base64" +:+ "," +:+ "iVBORw0KGgo="))
    by reflexivity.
  assert (H2 : noComma "data:image/png;base64" = true) by reflexivity.
  assert (H3 : noComma "iVBORw0KGgo=" = true) by reflexivity.
  exact (conj H1 (conj H2 (conj H3
           (proj1 (fileToBase64_payload sampleReader sampleFile)
              _ _ H1 H2 H3)))).
Defined.

End DataUrlSpec.
